(** * Remote automation scripts: ssh_run, scp_copy, upload_images

    A shallow embedding of the three Python entry points under
    [src/remote/]: [ssh_run.py], [scp_run.py] and [upload_images.py].

    The scripts are sequences of calls into the SSH library, guarded by
    [try]/[except]/[finally].  They are embedded as programs of a small
    state-and-exception monad.  The state holds the trace of the calls the
    script made (library calls and prints, in program order), the remote
    file system and the state of the SSH client object.  What the scripts
    find on the local disk ([.env], the files to upload) and what the
    library and the remote host answer is given by a [world] record. *)

From Stdlib Require Import ZArith Lia Ascii.
From Stdlib.Strings Require Import Byte.
From stdpp Require Import base strings gmap list pretty.

Local Open Scope string_scope.
Local Open Scope Z_scope.

(** ** Python exceptions *)

(** The exception classes the scripts distinguish.  [AuthenticationException]
    is a subclass of [SSHException]; [IOError] is Python 3's alias of
    [OSError]; [SystemExit] and [KeyboardInterrupt] derive from
    [BaseException] and are not caught by [except Exception]. *)
Inductive exn : Type :=
  | AuthenticationException (msg : string)
  | SSHException (msg : string)
  | OSError (msg : string)
  | ValueError (msg : string)
  | OtherException (msg : string)
  | SystemExit (code : Z)
  | KeyboardInterrupt.

Definition is_AuthenticationException (e : exn) : bool :=
  match e with AuthenticationException _ => true | _ => false end.

Definition is_SSHException (e : exn) : bool :=
  match e with AuthenticationException _ | SSHException _ => true | _ => false end.

Definition is_IOError (e : exn) : bool :=
  match e with OSError _ => true | _ => false end.

Definition is_Exception (e : exn) : bool :=
  match e with SystemExit _ | KeyboardInterrupt => false | _ => true end.

(** [str(e)], as interpolated by the f-strings of the handlers. *)
Definition exn_str (e : exn) : string :=
  match e with
  | AuthenticationException m | SSHException m | OSError m
  | ValueError m | OtherException m => m
  | SystemExit c => pretty c
  | KeyboardInterrupt => ""
  end.

(** ** The local file system, as [pathlib] shows it *)

(** A [Path] object that exists: [node_str] is [str(p)], [node_name] is
    [p.name]; a directory lists its direct children in the order in which
    the operating system enumerates them. *)
#[warnings="-register-all"]
Inductive node : Type :=
  | NFile (str name : string)
  | NDir (str name : string) (children : list node).

Definition node_str (p : node) : string :=
  match p with NFile s _ | NDir s _ _ => s end.

Definition node_name (p : node) : string :=
  match p with NFile _ n | NDir _ n _ => n end.

Definition is_file (p : node) : bool :=
  match p with NFile _ _ => true | NDir _ _ _ => false end.

Fixpoint starts_with (prefix s : string) : bool :=
  match prefix with
  | EmptyString => true
  | String a prefix' =>
      match s with
      | EmptyString => false
      | String b s' => Ascii.eqb a b && starts_with prefix' s'
      end
  end.

Definition ends_with (suffix s : string) : bool :=
  starts_with (String.rev suffix) (String.rev s).

(** [fnmatch] for the two shapes of pattern the scripts use: ["*"] followed
    by a literal suffix, or a literal name. *)
Definition fnmatch (pattern name : string) : bool :=
  match pattern with
  | String "*"%char suffix => ends_with suffix name
  | _ => bool_decide (pattern = name)
  end.

(** [p.glob(pattern)]: the direct children whose name matches, directories
    included, in enumeration order. *)
Definition glob (pattern : string) (p : node) : list node :=
  match p with
  | NDir _ _ children => filter (λ c, fnmatch pattern (node_name c) = true) children
  | NFile _ _ => []
  end.

(** ** The remote host *)

Record remote_fs : Type := mkRemote {
  r_dirs : gset string;
  (** remote path ↦ [str] of the local file last written there *)
  r_files : gmap string string;
}.

(** The [paramiko.SSHClient] object. *)
Inductive session_state : Type := Unconnected | Connected | Closed.

(** What the environment answers.  [None] for a fault field means that the
    call does not fail for a reason of the transport. *)
Record world : Type := mkWorld {
  (** [str] of the path of the [.env] file, next to the scripts *)
  w_env_path : string;
  (** the lines of the [.env] file, each with its line end; [None] when
      the file does not exist *)
  w_env : option (list string);
  w_fs : string → option node;
  w_project_root : string;
  w_connect : option string → Z → option string → option string → option exn;
  w_open_sftp : option exn;
  w_mkdir_fault : string → option exn;
  w_put_fault : string → string → option exn;
  w_exec : string → option exn;
  w_stdout : exn + list byte;
  w_stderr : exn + list byte;
  w_exit_status : Z;
}.

(** ** Traces *)

Inductive event : Type :=
  | EStdout (text : string)
  | EStderr (text : string)
  | ENewClient
  | ESetPolicy
  | EConnect (host : option string) (port : Z) (user password : option string) (timeout : Z)
  | EOpenSftp
  | EMkdir (path : string)
  | EPut (local_path remote_path : string)
  | ESftpClose
  | EExec (command : string)
  | EReadStdout
  | EReadStderr
  | ERecvExit
  | EClose.

Global Instance event_eq_dec : EqDecision event.
Proof. solve_decision. Defined.

Record state : Type := mkState {
  trace : list event;
  remote : remote_fs;
  session : session_state;
}.

Definition init_state (r : remote_fs) : state :=
  {| trace := []; remote := r; session := Unconnected |}.

(** ** The monad *)

Inductive res (A : Type) : Type :=
  | Ok (a : A)
  | Raise (e : exn).
Arguments Ok {A} a.
Arguments Raise {A} e.

Definition M (A : Type) : Type := state → res A * state.

Definition ret {A} (a : A) : M A := λ s, (Ok a, s).

Definition raise {A} (e : exn) : M A := λ s, (Raise e, s).

Definition bind {A B} (m : M A) (k : A → M B) : M B := λ s,
  match m s with
  | (Ok a, s') => k a s'
  | (Raise e, s') => (Raise e, s')
  end.

Declare Scope prog_scope.
Delimit Scope prog_scope with prog.
Notation "x <- m ;; k" := (bind m (λ x, k))
  (at level 100, m at next level, k at level 200, right associativity) : prog_scope.
Notation "m ;; k" := (bind m (λ _, k))
  (at level 100, k at level 200, right associativity) : prog_scope.
Local Open Scope prog_scope.

(** [try: m  except ...: h]: the first handler whose class matches runs;
    [h e = None] when no clause matches [e]. *)
Definition try_except {A} (m : M A) (h : exn → option (M A)) : M A := λ s,
  match m s with
  | (Ok a, s') => (Ok a, s')
  | (Raise e, s') =>
      match h e with
      | Some k => k s'
      | None => (Raise e, s')
      end
  end.

(** [try: m  finally: fin]: [fin] runs however [m] ends, then [m]'s outcome
    stands, unless [fin] itself raises. *)
Definition try_finally {A} (m : M A) (fin : M unit) : M A := λ s,
  match m s with
  | (r, s') =>
      match fin s' with
      | (Ok _, s'') => (r, s'')
      | (Raise e, s'') => (Raise e, s'')
      end
  end.

Definition emit (e : event) : M unit := λ s,
  (Ok tt, {| trace := trace s ++ [e]; remote := remote s; session := session s |}).

Definition set_session (st : session_state) : M unit := λ s,
  (Ok tt, {| trace := trace s; remote := remote s; session := st |}).

Definition get_session : M session_state := λ s, (Ok (session s), s).

Definition get_remote : M remote_fs := λ s, (Ok (remote s), s).

Definition set_remote (r : remote_fs) : M unit := λ s,
  (Ok tt, {| trace := trace s; remote := r; session := session s |}).

Definition fault (o : option exn) : M unit :=
  match o with
  | Some e => raise e
  | None => ret tt
  end.

(** ** Built-ins *)

Definition print (text : string) : M unit := emit (EStdout text).
Definition print_err (text : string) : M unit := emit (EStderr text).
Definition sys_exit {A} (code : Z) : M A := raise (SystemExit code).

(** The text written by [print(line)] ends with a newline; [print(text,
    end='')] writes [text] alone. *)
Definition nl : string := String "010"%char "".
Definition line (text : string) : string := text +:+ nl.
Definition println (text : string) : M unit := print (line text).
Definition println_err (text : string) : M unit := print_err (line text).

(** [bool(s)] for a [str]. *)
Definition nonempty_str (s : string) : bool := negb (bool_decide (s = "")).

(** [bool(x)] for a value that is [None] or a [str]. *)
Definition truthy (o : option string) : bool :=
  match o with
  | Some s => nonempty_str s
  | None => false
  end.

Definition py_all (l : list bool) : bool := forallb id l.

(** [f"{x}"] for a value that is [None] or a [str]. *)
Definition fmt (o : option string) : string := default "None" o.

(** *** [int(s)] on a string

    Base 10: surrounding whitespace is dropped, one sign is allowed, then
    digits, where single underscores may separate digits.  Characters are
    ASCII here; Python also reads other Unicode decimal digits. *)
Definition is_space (c : ascii) : bool :=
  let n := nat_of_ascii c in
  ((9 <=? n)%nat && (n <=? 13)%nat) || ((28 <=? n)%nat && (n <=? 32)%nat).

Definition is_digit (c : ascii) : bool :=
  let n := nat_of_ascii c in (48 <=? n)%nat && (n <=? 57)%nat.

Definition digit_val (c : ascii) : Z := Z.of_nat (nat_of_ascii c) - 48.

Fixpoint lstrip (s : string) : string :=
  match s with
  | String c r => if is_space c then lstrip r else s
  | EmptyString => EmptyString
  end.

Definition strip (s : string) : string :=
  String.rev (lstrip (String.rev (lstrip s))).

(** [after_digit] tells whether the previous character was a digit: an
    underscore is accepted only then, and the literal must not end on
    one. *)
Fixpoint digits (acc : Z) (after_digit : bool) (s : string) : option Z :=
  match s with
  | EmptyString => if after_digit then Some acc else None
  | String c r =>
      if is_digit c then digits (10 * acc + digit_val c) true r
      else if Ascii.eqb c "_" && after_digit then digits acc false r
      else None
  end.

Definition py_int (s : string) : option Z :=
  match strip s with
  | String "+" r => digits 0 false r
  | String "-" r => Z.opp <$> digits 0 false r
  | t => digits 0 false t
  end.

(** *** [bytes.decode('utf-8', errors=...)]

    The decoder reads a lead byte, then the continuation bytes the lead
    announces, each within the bounds that rule out overlong forms,
    surrogates and values above U+10FFFF.  A lead byte gives the high bits
    of the code point, every continuation byte six more. *)
Record pending : Type := mkPending {
  d_cp : Z;
  d_needed : nat;
  d_lower : Z;
  d_upper : Z;
}.

Inductive dstep : Type :=
  | Emit (cp : Z)
  | More (st : pending)
  | Bad.

Definition byte_val (b : byte) : Z := Z.of_N (Byte.to_N b).

Definition lead (b : Z) : dstep :=
  if b <=? 0x7F then Emit b
  else if (0xC2 <=? b) && (b <=? 0xDF) then
    More {| d_cp := b mod 32; d_needed := 1; d_lower := 0x80; d_upper := 0xBF |}
  else if (0xE0 <=? b) && (b <=? 0xEF) then
    More {| d_cp := b mod 16; d_needed := 2;
            d_lower := if b =? 0xE0 then 0xA0 else 0x80;
            d_upper := if b =? 0xED then 0x9F else 0xBF |}
  else if (0xF0 <=? b) && (b <=? 0xF4) then
    More {| d_cp := b mod 8; d_needed := 3;
            d_lower := if b =? 0xF0 then 0x90 else 0x80;
            d_upper := if b =? 0xF4 then 0x8F else 0xBF |}
  else Bad.

Definition continue (st : pending) (b : Z) : dstep :=
  if (d_lower st <=? b) && (b <=? d_upper st) then
    let cp := 64 * d_cp st + b mod 64 in
    match d_needed st with
    | S (S n) => More {| d_cp := cp; d_needed := S n; d_lower := 0x80; d_upper := 0xBF |}
    | _ => Emit cp
    end
  else Bad.

(** One entry per decoded code point, and one [None] per maximal run of
    bytes that is not the start of any well-formed sequence.  A byte that
    breaks a sequence is read again as a lead byte. *)
Fixpoint utf8_scan (st : option pending) (bs : list byte) : list (option Z) :=
  match bs with
  | [] => match st with None => [] | Some _ => [None] end
  | b :: rest =>
      let fresh :=
        match lead (byte_val b) with
        | Emit cp => Some cp :: utf8_scan None rest
        | More st' => utf8_scan (Some st') rest
        | Bad => None :: utf8_scan None rest
        end in
      match st with
      | None => fresh
      | Some st =>
          match continue st (byte_val b) with
          | Emit cp => Some cp :: utf8_scan None rest
          | More st' => utf8_scan (Some st') rest
          | Bad => None :: fresh
          end
      end
  end.

Definition replacement_character : Z := 0xFFFD.

(** [errors='strict']: [None] stands for [UnicodeDecodeError]. *)
Definition decode_utf8_strict (bs : list byte) : option (list Z) :=
  mapM id (utf8_scan None bs).

(** [errors='replace']: a Python [str], as its list of code points. *)
Definition decode_utf8_replace (bs : list byte) : list Z :=
  default replacement_character <$> utf8_scan None bs.

(** A code point that a Python [str] can hold and UTF-8 can encode. *)
Definition scalar_value (cp : Z) : Prop :=
  0 <= cp <= 0x10FFFF ∧ ¬ (0xD800 <= cp <= 0xDFFF).

Definition byte_of (z : Z) : byte := default x00 (Byte.of_N (Z.to_N z)).

(** [chr(cp).encode('utf-8')], for a scalar value. *)
Definition encode_utf8_char (cp : Z) : list byte :=
  if cp <? 0x80 then [byte_of cp]
  else if cp <? 0x800 then [byte_of (0xC0 + cp / 64); byte_of (0x80 + cp mod 64)]
  else if cp <? 0x10000 then
    [byte_of (0xE0 + cp / 64 / 64); byte_of (0x80 + (cp / 64) mod 64);
     byte_of (0x80 + cp mod 64)]
  else
    [byte_of (0xF0 + cp / 64 / 64 / 64); byte_of (0x80 + (cp / 64 / 64) mod 64);
     byte_of (0x80 + (cp / 64) mod 64); byte_of (0x80 + cp mod 64)].

(** [text.encode('utf-8')] *)
Definition encode_utf8 (text : list Z) : list byte := text ≫= encode_utf8_char.

(** The bytes are the UTF-8 form of some text. *)
Definition decodable (bs : list byte) : Prop :=
  ∃ text, Forall scalar_value text ∧ bs = encode_utf8 text.

(** *** Permissive decoding, in the words of the specification

    "Any byte sequence that cannot be decoded is replaced with a
    placeholder character rather than failing the whole operation": the
    text is read off the bytes from left to right.  Where a character
    begins, the text holds that character.  Elsewhere it holds one U+FFFD
    for the longest run of bytes that still begins some character, or for
    one byte when not even that byte begins one, and reading goes on
    after the run. *)

(** [p] is an initial part of the UTF-8 form of some character. *)
Definition starts_character (p : list byte) : Prop :=
  ∃ cp rest, scalar_value cp ∧ encode_utf8_char cp = (p ++ rest)%list.

(** [bs] begins with the UTF-8 form of a character. *)
Definition well_formed_start (bs : list byte) : Prop :=
  ∃ cp rest, scalar_value cp ∧ bs = (encode_utf8_char cp ++ rest)%list.

(** No character begins [p ++ rest], and [p] is the part of it that one
    placeholder stands for. *)
Definition undecodable_part (p rest : list byte) : Prop :=
  ¬ well_formed_start (p ++ rest)
  ∧ p ≠ []
  ∧ (length p = 1%nat ∨ starts_character p)
  ∧ ∀ q, q `prefix_of` (p ++ rest)%list → (length p < length q)%nat → ¬ starts_character q.

Inductive replaced : list byte → list Z → Prop :=
  | replaced_nil : replaced [] []
  | replaced_char cp rest text :
      scalar_value cp →
      replaced rest text →
      replaced (encode_utf8_char cp ++ rest) (cp :: text)
  | replaced_part p rest text :
      undecodable_part p rest →
      replaced rest text →
      replaced (p ++ rest) (replacement_character :: text).

(** [text.encode('ascii', errors='replace').decode('ascii')] *)
Definition ascii_sanitize (text : list Z) : string :=
  String.string_of_list_ascii
    ((λ cp, if (0 <=? cp) && (cp <? 128) then ascii_of_nat (Z.to_nat cp) else "?"%char) <$> text).

Definition nonempty {A} (l : list A) : bool :=
  match l with [] => false | _ => true end.

(** ** The SSH library, as the scripts use it

    Every call leaves its event in the trace, then asks the [world] whether
    it fails. *)

(** [paramiko.SSHClient()] *)
Definition SSHClient : M unit := emit ENewClient ;; set_session Unconnected.

(** [client.set_missing_host_key_policy(paramiko.AutoAddPolicy())] *)
Definition set_missing_host_key_policy : M unit := emit ESetPolicy.

(** [client.connect(host, port=port, username=user, password=password,
    timeout=timeout)] *)
Definition connect (w : world) (host : option string) (port : Z)
    (user password : option string) (timeout : Z) : M unit :=
  emit (EConnect host port user password timeout) ;;
  fault (w_connect w host port user password) ;;
  set_session Connected.

(** [ssh.open_sftp()] *)
Definition open_sftp (w : world) : M unit :=
  emit EOpenSftp ;; fault (w_open_sftp w).

(** [sftp.mkdir(path)]: the server refuses to create a directory that
    exists; the refusal reaches the script as an [IOError]. *)
Definition sftp_mkdir (w : world) (path : string) : M unit :=
  emit (EMkdir path) ;;
  fault (w_mkdir_fault w path) ;;
  r <- get_remote ;;
  if bool_decide (path ∈ r_dirs r) then raise (OSError "Failure")
  else set_remote {| r_dirs := {[path]} ∪ r_dirs r; r_files := r_files r |}.

(** [sftp.put(str(f), remote_path)]: the local file is opened first, which
    fails on a directory; the remote file is then written, replacing what
    was there. *)
Definition sftp_put (w : world) (f : node) (remote_path : string) : M unit :=
  emit (EPut (node_str f) remote_path) ;;
  (if is_file f then ret tt
   else raise (OSError ("[Errno 21] Is a directory: '" +:+ node_str f +:+ "'"))) ;;
  fault (w_put_fault w (node_str f) remote_path) ;;
  r <- get_remote ;;
  set_remote {| r_dirs := r_dirs r; r_files := <[remote_path := node_str f]> (r_files r) |}.

(** [sftp.close()] *)
Definition sftp_close : M unit := emit ESftpClose.

(** [client.exec_command(command)] *)
Definition exec_command (w : world) (command : string) : M unit :=
  emit (EExec command) ;; fault (w_exec w command).

(** [stdout.read()]: the whole stream, up to its end. *)
Definition stdout_read (w : world) : M (list byte) :=
  emit EReadStdout ;;
  match w_stdout w with inl e => raise e | inr bs => ret bs end.

(** [stderr.read()] *)
Definition stderr_read (w : world) : M (list byte) :=
  emit EReadStderr ;;
  match w_stderr w with inl e => raise e | inr bs => ret bs end.

(** [stdout.channel.recv_exit_status()] *)
Definition recv_exit_status (w : world) : M Z :=
  emit ERecvExit ;; ret (w_exit_status w).

(** Modelled from the spec: [SSHClient.close()] belongs to the SSH library,
    which is not part of the repository.  The session goes
    [Unconnected -> Connected -> Closed]; closing a connected session
    releases it, closing a session that is closed already or was never
    connected does nothing, and no case is an error. *)
Definition close_session (st : session_state) : session_state :=
  match st with
  | Connected => Closed
  | Unconnected => Unconnected
  | Closed => Closed
  end.

(** [client.close()] *)
Definition close : M unit :=
  emit EClose ;;
  st <- get_session ;;
  set_session (close_session st).

(** ** The scripts *)

(** [c in s] for a character [c]. *)
Fixpoint str_in (c : ascii) (s : string) : bool :=
  match s with
  | EmptyString => false
  | String a r => Ascii.eqb a c || str_in c r
  end.

(** [s.split(c, 1)] for a string that holds [c]: what stands before the
    first [c], and what stands after it. *)
Fixpoint split1 (c : ascii) (s : string) : string * string :=
  match s with
  | EmptyString => (EmptyString, EmptyString)
  | String a r =>
      if Ascii.eqb a c then (EmptyString, r)
      else let '(key, value) := split1 c r in (String a key, value)
  end.

(** The body of [for line in f] in [load_env]. *)
Definition load_line (config : gmap string string) (text : string) : gmap string string :=
  let text := strip text in
  if nonempty_str text && negb (starts_with "#" text) && str_in "=" text
  then
    let '(key, value) := split1 "=" text in
    <[strip key := strip value]> config
  else config.

(** [load_env()], the same in the three scripts.  The file is absent or
    is read whole: an existing file that cannot be opened or decoded, on
    which [open] or the iteration over the lines raises outside every
    [try], is not part of the model. *)
Definition load_env (w : world) : M (gmap string string) :=
  match w_env w with
  | None =>
      println_err ("Error: .env file not found at " +:+ w_env_path w) ;;
      sys_exit 1
  | Some lines => ret (foldl load_line ∅ lines)
  end.

(** [int(config.get('SSH_PORT', 22))]: the default is the integer 22, any
    value found in the file is a string and is parsed. *)
Definition port_of (config : gmap string string) : res Z :=
  match config !! "SSH_PORT" with
  | None => Ok 22
  | Some s =>
      match py_int s with
      | Some n => Ok n
      | None => Raise (ValueError ("invalid literal for int() with base 10: '" +:+ s +:+ "'"))
      end
  end.

(** [port = int(config.get('SSH_PORT', 22))] *)
Definition get_port (config : gmap string string) : M Z := λ s, (port_of config, s).

(** The three [except] clauses, in the order of the source; [on_error] is
    what every clause does after its message. *)
Definition handlers {A} (on_error : M A) (e : exn) : option (M A) :=
  if is_AuthenticationException e then
    Some (println_err "Error: Authentication failed" ;; on_error)
  else if is_SSHException e then
    Some (println_err ("Error: SSH connection failed - " +:+ exn_str e) ;; on_error)
  else if is_Exception e then
    Some (println_err ("Error: " +:+ exn_str e) ;; on_error)
  else None.

(** [except IOError: pass] *)
Definition pass_IOError (e : exn) : option (M unit) :=
  if is_IOError e then Some (ret tt) else None.

(** The progress line after file [i + 1] of [total]. *)
Definition progress_line (done total : nat) : string :=
  "Uploaded " +:+ pretty done +:+ "/" +:+ pretty total.

(** [for i, f in enumerate(files): ...], from index [i] on. *)
Fixpoint upload_loop (w : world) (remote_path : string) (total : nat)
    (i : nat) (files : list node) : M unit :=
  match files with
  | [] => ret tt
  | f :: rest =>
      let remote_file := remote_path +:+ "/" +:+ node_name f in
      sftp_put w f remote_file ;;
      (if ((i + 1) mod 10 =? 0)%nat || (i + 1 =? total)%nat
       then println (progress_line (i + 1) total)
       else ret tt) ;;
      upload_loop w remote_path total (i + 1) rest
  end.

(** *** scp_run.py *)

Definition scp_copy (w : world) (local_path remote_path : string) : M Z :=
  config <- load_env w ;;
  let host := config !! "SSH_HOST" in
  let user := config !! "SSH_USER" in
  let password := config !! "SSH_PASSWORD" in
  port <- get_port config ;;
  if negb (py_all [truthy host; truthy user; truthy password]) then
    println_err "Error: Missing SSH configuration in .env file" ;;
    sys_exit 1
  else
    match w_fs w local_path with
    | None =>
        println_err ("Error: Local path not found: " +:+ local_path) ;;
        sys_exit 1
    | Some local =>
        println ("Connecting to " +:+ fmt host +:+ "...") ;;
        SSHClient ;;
        set_missing_host_key_policy ;;
        try_finally
          (try_except
             (connect w host port user password 30 ;;
              open_sftp w ;;
              if is_file local then
                println ("Uploading " +:+ node_name local +:+ "...") ;;
                sftp_put w local remote_path ;;
                println ("Done! Uploaded " +:+ node_name local) ;;
                sftp_close ;;
                ret 0
              else
                let files := glob "*" local in
                let files := filter (λ f, is_file f = true) files in
                if negb (nonempty files) then
                  println "No files found to upload." ;;
                  ret 0
                else
                  try_except (sftp_mkdir w remote_path) pass_IOError ;;
                  println ("Uploading " +:+ pretty (length files) +:+ " files...") ;;
                  upload_loop w remote_path (length files) 0 files ;;
                  println ("Done! Uploaded " +:+ pretty (length files) +:+ " files.") ;;
                  sftp_close ;;
                  ret 0)
             (handlers (ret 1)))
          close
    end.

Definition scp_usage : list string :=
  [ "Usage: python scp_run.py <local_path> <remote_path>";
    nl +:+ "Examples:";
    "  python scp_run.py ../server/uploads/products /root/PerfumesStore/server/uploads/products";
    "  python scp_run.py ./file.txt /root/file.txt" ].

(** The [__main__] block of scp_run.py; [argv] is [sys.argv]. *)
Definition scp_main (w : world) (argv : list string) : M unit :=
  match argv with
  | _ :: local_path :: remote_path :: _ =>
      exit_code <- scp_copy w local_path remote_path ;;
      sys_exit exit_code
  | _ =>
      foldr (λ text k, println_err text ;; k) (sys_exit 1) scp_usage
  end.

(** *** ssh_run.py *)

Definition ssh_run (w : world) (command : string) : M Z :=
  config <- load_env w ;;
  let host := config !! "SSH_HOST" in
  let user := config !! "SSH_USER" in
  let password := config !! "SSH_PASSWORD" in
  port <- get_port config ;;
  if negb (py_all [truthy host; truthy user; truthy password]) then
    println_err "Error: Missing SSH configuration in .env file" ;;
    sys_exit 1
  else
    SSHClient ;;
    set_missing_host_key_policy ;;
    try_finally
      (try_except
         (connect w host port user password 30 ;;
          exec_command w command ;;
          raw_output <- stdout_read w ;;
          let output := decode_utf8_replace raw_output in
          raw_errors <- stderr_read w ;;
          let errors := decode_utf8_replace raw_errors in
          exit_code <- recv_exit_status w ;;
          (if nonempty output then print (ascii_sanitize output) else ret tt) ;;
          (if nonempty errors then print_err (ascii_sanitize errors) else ret tt) ;;
          ret exit_code)
         (handlers (sys_exit 1)))
      close.

(** The [__main__] block of ssh_run.py. *)
Definition ssh_main (w : world) (argv : list string) : M unit :=
  match argv with
  | _ :: (_ :: _) as args =>
      let command := String.concat " " args in
      exit_code <- ssh_run w command ;;
      sys_exit exit_code
  | _ =>
      println_err "Usage: python ssh_run.py <command>" ;;
      sys_exit 1
  end.

(** *** upload_images.py *)

Definition remote_dir : string := "/root/PerfumesStore/server/uploads/products".

(** [Path(__file__).parent.parent / "server" / "uploads" / "products"],
    where [w_project_root] is [str(Path(__file__).parent.parent)]. *)
Definition local_dir (w : world) : string :=
  w_project_root w +:+ "/server/uploads/products".

Definition upload_images (w : world) : M unit :=
  config <- load_env w ;;
  let host := config !! "SSH_HOST" in
  let user := config !! "SSH_USER" in
  let password := config !! "SSH_PASSWORD" in
  port <- get_port config ;;
  if negb (py_all [truthy host; truthy user; truthy password]) then
    println_err "Error: Missing SSH configuration in .env file" ;;
    sys_exit 1
  else
    match w_fs w (local_dir w) with
    | None =>
        println_err ("Error: Local directory not found: " +:+ local_dir w) ;;
        sys_exit 1
    | Some dir =>
        println ("Connecting to " +:+ fmt host +:+ "...") ;;
        SSHClient ;;
        set_missing_host_key_policy ;;
        try_finally
          (try_except
             (connect w host port user password 30 ;;
              open_sftp w ;;
              try_except (sftp_mkdir w remote_dir) pass_IOError ;;
              let files := (glob "*.png" dir ++ glob "*.jpg" dir ++ glob "*.webp" dir)%list in
              if negb (nonempty files) then
                println "No image files found to upload."
              else
                println ("Uploading " +:+ pretty (length files) +:+ " images...") ;;
                upload_loop w remote_dir (length files) 0 files ;;
                println ("Done! Uploaded " +:+ pretty (length files) +:+ " images.") ;;
                sftp_close)
             (handlers (sys_exit 1)))
          close
    end.

(** ** How an invocation ends *)

Inductive termination : Type :=
  | Exited (code : Z)
  | Uncaught (e : exn).

(** The process exits with the argument of [sys.exit], with 0 when the
    script runs to its end, and dies on any other exception. *)
Definition run (m : M unit) (s : state) : termination * state :=
  match m s with
  | (Ok _, s') => (Exited 0, s')
  | (Raise (SystemExit code), s') => (Exited code, s')
  | (Raise e, s') => (Uncaught e, s')
  end.

(** ** Reading traces *)

(** The uploads a trace starts, as (local path, remote path). *)
Definition puts (t : list event) : list (string * string) :=
  omap (λ e, match e with EPut l r => Some (l, r) | _ => None end) t.

(** The calls that go to the remote host. *)
Definition is_network (e : event) : bool :=
  match e with
  | EStdout _ | EStderr _ | ENewClient | ESetPolicy => false
  | _ => true
  end.

Definition network (t : list event) : list event :=
  filter (λ e, is_network e = true) t.

(** What went to standard error. *)
Definition stderr_of (t : list event) : list string :=
  omap (λ e, match e with EStderr l => Some l | _ => None end) t.

(** [load_env()] returns [config]. *)
Definition loads (w : world) (config : gmap string string) : Prop :=
  ∃ lines, w_env w = Some lines ∧ foldl load_line ∅ lines = config.

(** A credential is missing when its key is absent or its value empty. *)
Definition missing (config : gmap string string) (key : string) : Prop :=
  config !! key = None ∨ config !! key = Some "".

Definition credentials_present (config : gmap string string) : Prop :=
  py_all [truthy (config !! "SSH_HOST"); truthy (config !! "SSH_USER");
          truthy (config !! "SSH_PASSWORD")] = true.

Definition config_error : string :=
  line "Error: Missing SSH configuration in .env file".

(** The outcome the pre-flight check gives: the message on standard error,
    exit status 1, and nothing else done. *)
Definition rejects_config {A} (m : M A) : Prop :=
  ∀ r, m (init_state r) =
       (Raise (SystemExit 1),
        {| trace := [EStderr config_error]; remote := r; session := Unconnected |}).

(** ** Reading an upload batch *)

(** Where file [f] of a batch goes on the remote host. *)
Definition destination (remote_path : string) (f : node) : string :=
  remote_path +:+ "/" +:+ node_name f.

(** The exception [sftp.put] raises for [f], if any. *)
Definition put_error (w : world) (f : node) (remote_file : string) : option exn :=
  if is_file f then w_put_fault w (node_str f) remote_file
  else Some (OSError ("[Errno 21] Is a directory: '" +:+ node_str f +:+ "'")).

Definition uploads_ok (w : world) (remote_path : string) (files : list node) : Prop :=
  Forall (λ f, put_error w f (destination remote_path f) = None) files.

(** The remote host once [files] are written. *)
Definition uploaded (remote_path : string) (files : list node) (r : remote_fs) : remote_fs :=
  foldl (λ r f, {| r_dirs := r_dirs r;
                   r_files := <[destination remote_path f := node_str f]> (r_files r) |})
        r files.

(** The remote host once [sftp.mkdir(path)] was tried. *)
Definition after_mkdir (w : world) (path : string) (r : remote_fs) : remote_fs :=
  match w_mkdir_fault w path with
  | Some _ => r
  | None =>
      if bool_decide (path ∈ r_dirs r) then r
      else {| r_dirs := {[path]} ∪ r_dirs r; r_files := r_files r |}
  end.

(** What a run of the loop leaves in the trace when every upload works. *)
Fixpoint loop_trace (remote_path : string) (total i : nat) (files : list node) : list event :=
  match files with
  | [] => []
  | f :: rest =>
      (EPut (node_str f) (destination remote_path f)
       :: (if ((i + 1) mod 10 =? 0)%nat || (i + 1 =? total)%nat
           then [EStdout (line (progress_line (i + 1) total))]
           else [])
       ++ loop_trace remote_path total (i + 1) rest)%list
  end.

(** The progress lines of a trace, each with the number of uploads started
    before it. *)
Fixpoint progress_reports (started : nat) (t : list event) : list (nat * string) :=
  match t with
  | [] => []
  | EPut _ _ :: t' => progress_reports (S started) t'
  | EStdout text :: t' =>
      if starts_with "Uploaded " text
      then (started, text) :: progress_reports started t'
      else progress_reports started t'
  | _ :: t' => progress_reports started t'
  end.

(** The cadence in the words of the specification: after files 10, 20, ...
    and after the last file. *)
Definition cadence (n : nat) : list nat :=
  (((λ j, 10 * j)%nat <$> seq 1 (n / 10))
   ++ (if (n mod 10 =? 0)%nat then [] else [n]))%list.

(** The line the handlers print for [e]. *)
Definition handler_message (e : exn) : string :=
  if is_AuthenticationException e then "Error: Authentication failed"
  else if is_SSHException e then "Error: SSH connection failed - " +:+ exn_str e
  else "Error: " +:+ exn_str e.

(** The state after more events, a new remote and a new session state. *)
Definition advance (t : list event) (r : remote_fs) (st : session_state)
    (s : state) : state :=
  {| trace := (trace s ++ t)%list; remote := r; session := st |}.

(** ** Assumptions on the environment *)

(** The [.env] file holds [config], which passes the pre-flight check; the
    server accepts the connection and the SFTP channel opens. *)
Definition channel_opens (w : world) (config : gmap string string) : Prop :=
  loads w config
  ∧ credentials_present config
  ∧ ∃ port,
      port_of config = Ok port
      ∧ w_connect w (config !! "SSH_HOST") port (config !! "SSH_USER")
          (config !! "SSH_PASSWORD") = None
      ∧ w_open_sftp w = None.

(** If [sftp.mkdir(path)] fails, it fails with an [IOError]. *)
Definition mkdir_tolerated (w : world) (path : string) : Prop :=
  ∀ e, w_mkdir_fault w path = Some e → is_IOError e = true.

(** The files [scp_copy] selects in a directory. *)
Definition regular_files (children : list node) : list node :=
  filter (λ f, is_file f = true) children.

(** The files [upload_images] selects in a directory. *)
Definition image_files (dir : node) : list node :=
  (glob "*.png" dir ++ glob "*.jpg" dir ++ glob "*.webp" dir)%list.

(** Progress is due after file [k] of [n]. *)
Definition due (n k : nat) : Prop := (k mod 10 = 0 ∨ k = n)%nat.

Global Instance due_dec (n k : nat) : Decision (due n k).
Proof. unfold due. apply _. Defined.

(** Every event [m] adds to the trace satisfies [P]. *)
Definition emits {A} (P : event → Prop) (m : M A) : Prop :=
  ∀ s, ∃ t, trace (m s).2 = (trace s ++ t)%list ∧ Forall P t.

Definition not_close (e : event) : Prop := e ≠ EClose.

(** If the trace shows that a client was created, it shows one [close],
    and nothing after it. *)
Definition session_released (t : list event) : Prop :=
  ENewClient ∈ t → count_occ event_eq_dec t EClose = 1%nat ∧ last t = Some EClose.

(** ** Sample inputs *)

Definition demo_env : list string :=
  [line "# server"; line "SSH_HOST=h"; line "SSH_USER = u"; line ""; line "SSH_PASSWORD=p"].

(** What [load_env()] makes of [demo_env]. *)
Definition demo_config : gmap string string :=
  <["SSH_HOST" := "h"]> (<["SSH_USER" := "u"]> (<["SSH_PASSWORD" := "p"]> ∅)).

(** Twelve files [f0] ... [f11] and one subdirectory that holds a file. *)
Definition demo_files (first count : nat) : list node :=
  (λ n : nat, NFile ("up/f" +:+ pretty n) ("f" +:+ pretty n)) <$> seq first count.

Definition demo_children : list node :=
  (demo_files 0 12 ++ [NDir "up/sub" "sub" [NFile "up/sub/x" "x"]])%list.

Definition demo_dir : node := NDir "up" "up" demo_children.

(** Three images and a text file. *)
Definition demo_images : node :=
  NDir "/srv/server/uploads/products" "products"
    [NFile "/srv/server/uploads/products/a.png" "a.png";
     NFile "/srv/server/uploads/products/notes.txt" "notes.txt";
     NFile "/srv/server/uploads/products/b.webp" "b.webp";
     NFile "/srv/server/uploads/products/c.jpg" "c.jpg"].

(** A host on which everything works; [echo hi] prints [hi] and ends with
    status 17. *)
Definition demo_world : world := {|
  w_env_path := "/srv/remote/.env";
  w_env := Some demo_env;
  w_fs := λ p,
    if bool_decide (p = "up") then Some demo_dir
    else if bool_decide (p = "/srv/server/uploads/products") then Some demo_images
    else None;
  w_project_root := "/srv";
  w_connect := λ _ _ _ _, None;
  w_open_sftp := None;
  w_mkdir_fault := λ _, None;
  w_put_fault := λ _ _, None;
  w_exec := λ _, None;
  w_stdout := inr [x68; x69; x0a];
  w_stderr := inr [];
  w_exit_status := 17;
|}.

Definition empty_remote : remote_fs := {| r_dirs := ∅; r_files := ∅ |}.

(** The same host, with another [.env] file. *)
Definition with_env (lines : list string) (w : world) : world := {|
  w_env_path := w_env_path w;
  w_env := Some lines;
  w_fs := w_fs w;
  w_project_root := w_project_root w;
  w_connect := w_connect w;
  w_open_sftp := w_open_sftp w;
  w_mkdir_fault := w_mkdir_fault w;
  w_put_fault := w_put_fault w;
  w_exec := w_exec w;
  w_stdout := w_stdout w;
  w_stderr := w_stderr w;
  w_exit_status := w_exit_status w;
|}.

(** The same host, rejecting the password. *)
Definition auth_failure_world : world := {|
  w_env_path := w_env_path demo_world;
  w_env := w_env demo_world;
  w_fs := w_fs demo_world;
  w_project_root := w_project_root demo_world;
  w_connect := λ _ _ _ _, Some (AuthenticationException "Authentication failed.");
  w_open_sftp := None;
  w_mkdir_fault := λ _, None;
  w_put_fault := λ _ _, None;
  w_exec := λ _, None;
  w_stdout := w_stdout demo_world;
  w_stderr := w_stderr demo_world;
  w_exit_status := 17;
|}.

(** The same host, dropping the connection while [up/f3] is written. *)
Definition dropping_world : world := {|
  w_env_path := w_env_path demo_world;
  w_env := w_env demo_world;
  w_fs := w_fs demo_world;
  w_project_root := w_project_root demo_world;
  w_connect := λ _ _ _ _, None;
  w_open_sftp := None;
  w_mkdir_fault := λ _, None;
  w_put_fault := λ l _,
    if bool_decide (l = "up/f3") then Some (SSHException "Server connection dropped")
    else None;
  w_exec := λ _, None;
  w_stdout := w_stdout demo_world;
  w_stderr := w_stderr demo_world;
  w_exit_status := 17;
|}.

(** A remote host on which both destination directories exist. *)
Definition prepared_remote : remote_fs :=
  {| r_dirs := {["/srv/up"; remote_dir]}; r_files := ∅ |}.

(** A products directory that holds no file, only a directory whose name
    ends in [.png]. *)
Definition decoy_images : node :=
  NDir "/srv/server/uploads/products" "products"
    [NDir "/srv/server/uploads/products/thumbs.png" "thumbs.png" []].

Definition decoy_world : world := {|
  w_env_path := w_env_path demo_world;
  w_env := w_env demo_world;
  w_fs := λ p,
    if bool_decide (p = "/srv/server/uploads/products") then Some decoy_images else None;
  w_project_root := "/srv";
  w_connect := λ _ _ _ _, None;
  w_open_sftp := None;
  w_mkdir_fault := λ _, None;
  w_put_fault := λ _ _, None;
  w_exec := λ _, None;
  w_stdout := inr [];
  w_stderr := inr [];
  w_exit_status := 0;
|}.

(** The same host, on which the command writes [a], the first two bytes
    of a three-byte character, [b], a byte that starts no character and a
    line end to its standard output, and the first byte of a two-byte
    character to its standard error. *)
Definition garbled_world : world := {|
  w_env_path := w_env_path demo_world;
  w_env := w_env demo_world;
  w_fs := w_fs demo_world;
  w_project_root := w_project_root demo_world;
  w_connect := λ _ _ _ _, None;
  w_open_sftp := None;
  w_mkdir_fault := λ _, None;
  w_put_fault := λ _ _, None;
  w_exec := λ _, None;
  w_stdout := inr [x61; xe2; x82; x62; xff; x0a];
  w_stderr := inr [xc3];
  w_exit_status := 17;
|}.

(** ** Reading [.env] lines *)

(** Whitespace only. *)
Fixpoint blank (s : string) : bool :=
  match s with
  | EmptyString => true
  | String c r => is_space c && blank r
  end.

(** No whitespace at the start. *)
Definition starts_clean (s : string) : bool :=
  match s with
  | EmptyString => true
  | String c _ => negb (is_space c)
  end.

(** No whitespace at either end. *)
Definition trimmed (s : string) : bool :=
  starts_clean s && starts_clean (String.rev s).

(** [s.rstrip()] *)
Definition rstrip (s : string) : string := String.rev (lstrip (String.rev s)).

(** A line that [load_env] skips: blank, a comment (['#'] is its first
    character after the leading whitespace), or without ['=']. *)
Definition skipped (text : string) : bool :=
  blank text || starts_with "#" (lstrip text) || negb (str_in "=" text).

(** A line [KEY = VALUE], with optional whitespace around the key, around
    the value and at the end (the line end included). *)
Definition assignment (ws1 key ws2 ws3 value ws4 : string) : string :=
  ws1 +:+ key +:+ ws2 +:+ "=" +:+ ws3 +:+ value +:+ ws4.

(** [key] can stand left of ['=']: not empty, no whitespace at its ends, no
    ['='] in it, and not starting a comment. *)
Definition key_ok (key : string) : Prop :=
  key ≠ "" ∧ trimmed key = true ∧ str_in "=" key = false ∧ starts_with "#" key = false.

(** ** Checks that fail before a client exists *)

(** The outcome of such a check: [text] on standard error, exit status 1,
    and nothing else done. *)
Definition refuses {A} (text : string) (m : M A) : Prop :=
  ∀ r, m (init_state r) =
       (Raise (SystemExit 1),
        {| trace := [EStderr (line text)]; remote := r; session := Unconnected |}).

(** ** More sample inputs *)

(** The same host, without a [.env] file. *)
Definition without_env (w : world) : world := {|
  w_env_path := w_env_path w;
  w_env := None;
  w_fs := w_fs w;
  w_project_root := w_project_root w;
  w_connect := w_connect w;
  w_open_sftp := w_open_sftp w;
  w_mkdir_fault := w_mkdir_fault w;
  w_put_fault := w_put_fault w;
  w_exec := w_exec w;
  w_stdout := w_stdout w;
  w_stderr := w_stderr w;
  w_exit_status := w_exit_status w;
|}.

(** The same host, with another local file system. *)
Definition with_fs (fs : string → option node) (w : world) : world := {|
  w_env_path := w_env_path w;
  w_env := w_env w;
  w_fs := fs;
  w_project_root := w_project_root w;
  w_connect := w_connect w;
  w_open_sftp := w_open_sftp w;
  w_mkdir_fault := w_mkdir_fault w;
  w_put_fault := w_put_fault w;
  w_exec := w_exec w;
  w_stdout := w_stdout w;
  w_stderr := w_stderr w;
  w_exit_status := w_exit_status w;
|}.

(** The same host, on which the library calls fail as given. *)
Definition with_faults (on_connect on_sftp on_mkdir on_put on_exec : option exn)
    (w : world) : world := {|
  w_env_path := w_env_path w;
  w_env := w_env w;
  w_fs := w_fs w;
  w_project_root := w_project_root w;
  w_connect := λ _ _ _ _, on_connect;
  w_open_sftp := on_sftp;
  w_mkdir_fault := λ _, on_mkdir;
  w_put_fault := λ _ _, on_put;
  w_exec := λ _, on_exec;
  w_stdout := w_stdout w;
  w_stderr := w_stderr w;
  w_exit_status := w_exit_status w;
|}.

(** The same host, on which the command writes other streams. *)
Definition with_streams (out err : exn + list byte) (w : world) : world := {|
  w_env_path := w_env_path w;
  w_env := w_env w;
  w_fs := w_fs w;
  w_project_root := w_project_root w;
  w_connect := w_connect w;
  w_open_sftp := w_open_sftp w;
  w_mkdir_fault := w_mkdir_fault w;
  w_put_fault := w_put_fault w;
  w_exec := w_exec w;
  w_stdout := out;
  w_stderr := err;
  w_exit_status := w_exit_status w;
|}.

(** A local file system that holds one file. *)
Definition one_file (p : string) : option node :=
  if bool_decide (p = "notes.txt") then Some (NFile "notes.txt" "notes.txt") else None.

(** ** Reading a run *)

(** The [.env] file holds [config], which passes the pre-flight check and
    whose port is [port]. *)
Definition configured (w : world) (config : gmap string string) (port : Z) : Prop :=
  loads w config ∧ credentials_present config ∧ port_of config = Ok port.

(** [client.connect] as the scripts call it with [config]. *)
Definition connect_event (config : gmap string string) (port : Z) : event :=
  EConnect (config !! "SSH_HOST") port (config !! "SSH_USER") (config !! "SSH_PASSWORD") 30.

(** The exception [client.connect] raises with [config], if any. *)
Definition connect_error (w : world) (config : gmap string string) (port : Z) : option exn :=
  w_connect w (config !! "SSH_HOST") port (config !! "SSH_USER") (config !! "SSH_PASSWORD").

(** What went to standard output. *)
Definition stdout_of (t : list event) : list string :=
  omap (λ e, match e with EStdout l => Some l | _ => None end) t.

(** The line that announces the connection. *)
Definition connecting (config : gmap string string) : string :=
  line ("Connecting to " +:+ fmt (config !! "SSH_HOST") +:+ "...").

(** What the trace holds when [client.connect] was called. *)
Definition attempted (config : gmap string string) (port : Z) : list event :=
  [ENewClient; ESetPolicy; connect_event config port].

(** A name with one of the three image extensions, as [upload_images]
    spells them. *)
Definition is_image (name : string) : bool :=
  ends_with ".png" name || ends_with ".jpg" name || ends_with ".webp" name.

(** Where [upload_images] sends the upload of [f]. *)
Definition image_upload (f : node) : string * string :=
  (node_str f, remote_dir +:+ "/" +:+ node_name f).

(** A products directory with images of the three kinds. *)
Definition mixed_images : node :=
  NDir "/srv/server/uploads/products" "products"
    [NFile "/srv/server/uploads/products/a.webp" "a.webp";
     NFile "/srv/server/uploads/products/b.jpg" "b.jpg";
     NFile "/srv/server/uploads/products/c.PNG" "c.PNG";
     NFile "/srv/server/uploads/products/d.png" "d.png";
     NFile "/srv/server/uploads/products/e.jpeg" "e.jpeg";
     NFile "/srv/server/uploads/products/f.jpg" "f.jpg"].

Definition products (dir : node) (p : string) : option node :=
  if bool_decide (p = "/srv/server/uploads/products") then Some dir else None.

(** The first exception raised while the command runs and its streams are
    read, if any. *)
Definition command_error (w : world) (command : string) : option exn :=
  match w_exec w command with
  | Some e => Some e
  | None =>
      match w_stdout w with
      | inl e => Some e
      | inr _ => match w_stderr w with inl e => Some e | inr _ => None end
      end
  end.

(** Every character of [s] is ASCII. *)
Fixpoint is_ascii (s : string) : bool :=
  match s with
  | EmptyString => true
  | String c r => (nat_of_ascii c <? 128)%nat && is_ascii r
  end.

(** What is written to standard output is ASCII. *)
Definition ascii_stdout (e : event) : Prop :=
  match e with
  | EStdout text => is_ascii text = true
  | _ => True
  end.

(** ** The shape of a run *)

Definition is_print (e : event) : Prop :=
  match e with EStdout _ | EStderr _ => True | _ => False end.

(** The calls a script makes between [connect] and [close]. *)
Definition in_session (e : event) : Prop :=
  match e with
  | ENewClient | ESetPolicy | EConnect _ _ _ _ _ | EClose => False
  | _ => True
  end.

(** A run that only prints, or a run with one client: the host key policy
    is set, one connection is tried, with a timeout of 30 seconds, the
    calls of the session follow, and [close] ends the trace. *)
Definition one_session (t : list event) : Prop :=
  Forall is_print t
  ∨ ∃ pre host port user password mid,
      t = (pre ++ [ENewClient; ESetPolicy; EConnect host port user password 30]
           ++ mid ++ [EClose])%list
      ∧ Forall is_print pre
      ∧ Forall in_session mid.

(** ** How a script can end *)

(** [m] returns a value in [Pok] or raises an exception in [Perr]. *)
Definition ends {A} (Pok : A → Prop) (Perr : exn → Prop) (m : M A) : Prop :=
  ∀ s, match (m s).1 with Ok a => Pok a | Raise e => Perr e end.

(** Every exception the library raises is of class [Exception]: no
    interrupt arrives while the script runs. *)
Definition tame (w : world) : Prop :=
  (∀ host port user password e,
     w_connect w host port user password = Some e → is_Exception e = true)
  ∧ (∀ e, w_open_sftp w = Some e → is_Exception e = true)
  ∧ (∀ path e, w_mkdir_fault w path = Some e → is_Exception e = true)
  ∧ (∀ l r e, w_put_fault w l r = Some e → is_Exception e = true)
  ∧ (∀ command e, w_exec w command = Some e → is_Exception e = true)
  ∧ (∀ e, w_stdout w = inl e → is_Exception e = true)
  ∧ (∀ e, w_stderr w = inl e → is_Exception e = true).

(** If the process exits, by [sys.exit] or by reaching the end of the
    script, its status is one of [codes]. *)
Definition exits_in (codes : list Z) (t : termination) : Prop :=
  match t with
  | Exited code => code ∈ codes
  | Uncaught _ => True
  end.

(** If [e] is a [SystemExit], its status is 1. *)
Definition exit_1 (e : exn) : Prop := ∀ code, e = SystemExit code → code = 1.

(** A call that changes the remote host at [root] or directly below it. *)
Definition below (root : string) (e : event) : Prop :=
  match e with
  | EMkdir path => path = root
  | EPut _ remote_path =>
      remote_path = root ∨ ∃ name, remote_path = root +:+ "/" +:+ name
  | _ => True
  end.

(** * Theorems *)

Lemma py_all_false (config : gmap string string) (key : string) :
  key ∈ ["SSH_HOST"; "SSH_USER"; "SSH_PASSWORD"] →
  missing config key →
  py_all [truthy (config !! "SSH_HOST"); truthy (config !! "SSH_USER");
          truthy (config !! "SSH_PASSWORD")] = false.
Proof.
  intros Hkey Hmiss.
  assert (Hk : truthy (config !! key) = false).
  { destruct Hmiss as [-> | ->]; reflexivity. }
  unfold py_all; simpl.
  repeat (apply elem_of_cons in Hkey as [-> | Hkey]);
    [ | | | by apply elem_of_nil in Hkey ]; rewrite Hk; simpl;
    repeat (destruct (truthy _)); reflexivity.
Qed.

Lemma load_env_run (w : world) (config : gmap string string) (s : state) :
  loads w config → load_env w s = (Ok config, s).
Proof. intros (lines & Hlines & <-). unfold load_env. by rewrite Hlines. Qed.

Example demo_env_loads : loads demo_world demo_config.
Proof. exists demo_env. split; [reflexivity | vm_compute; reflexivity]. Qed.

(** ** Port parsing comes first *)

(** C10. When [SSH_PORT] is present and [int()] cannot read it, each of
    [scp_copy], [ssh_run] and [upload_images] raises [ValueError] before it
    looks at the credentials and before it prints or connects: the state is
    untouched, whatever the rest of the configuration holds.  No handler is
    in scope there, so the invocation dies on the exception instead of
    ending with a printed error and [sys.exit(1)]. *)
Theorem bad_port_raises_first (w : world) (config : gmap string string)
    (s local_path remote_path command : string) (st : state)
    (script : string) (args : list string) :
  loads w config →
  config !! "SSH_PORT" = Some s →
  py_int s = None →
  let e := ValueError ("invalid literal for int() with base 10: '" +:+ s +:+ "'") in
  scp_copy w local_path remote_path st = (Raise e, st)
  ∧ ssh_run w command st = (Raise e, st)
  ∧ upload_images w st = (Raise e, st)
  ∧ run (scp_main w (script :: local_path :: remote_path :: args)) st = (Uncaught e, st)
  ∧ run (ssh_main w (script :: command :: args)) st = (Uncaught e, st)
  ∧ run (upload_images w) st = (Uncaught e, st).
Proof.
  intros Hload Hport Hint e.
  assert (Hp : port_of config = Raise e).
  { unfold port_of. rewrite Hport, Hint. reflexivity. }
  assert (Hscp : ∀ l r, scp_copy w l r st = (Raise e, st)).
  { intros l r. unfold scp_copy, bind at 1. rewrite (load_env_run w config st Hload).
    unfold bind, get_port. rewrite Hp. reflexivity. }
  assert (Hssh : ∀ c, ssh_run w c st = (Raise e, st)).
  { intros c. unfold ssh_run, bind at 1. rewrite (load_env_run w config st Hload).
    unfold bind, get_port. rewrite Hp. reflexivity. }
  assert (Hup : upload_images w st = (Raise e, st)).
  { unfold upload_images, bind at 1. rewrite (load_env_run w config st Hload).
    unfold bind, get_port. rewrite Hp. reflexivity. }
  repeat split; auto.
  - unfold run, scp_main, bind. rewrite Hscp. reflexivity.
  - unfold run, ssh_main, bind. rewrite Hssh. reflexivity.
  - unfold run. rewrite Hup. reflexivity.
Qed.

Lemma bad_port_raises_first_witness :
  let w := with_env (demo_env ++ [line "SSH_PORT=ssh"]) demo_world in
  let e := ValueError "invalid literal for int() with base 10: 'ssh'" in
  run (ssh_main w ["ssh_run.py"; "ls"]) (init_state empty_remote)
  = (Uncaught e, init_state empty_remote).
Proof.
  intros w e.
  apply (bad_port_raises_first w (<["SSH_PORT" := "ssh"]> demo_config) "ssh" "" "" "ls"
           (init_state empty_remote) "ssh_run.py" []).
  - eexists. split; [reflexivity | vm_compute; reflexivity].
  - reflexivity.
  - reflexivity.
Defined.

(** ** The pre-flight check *)

(** C5, as stated, fails: with the host absent from the file and an
    unreadable [SSH_PORT], [ssh_run] does not end with the configuration
    failure; it raises [ValueError]. *)
Lemma missing_host_bad_port_not_rejected :
  ¬ (∀ (w : world) (config : gmap string string),
       loads w config →
       missing config "SSH_HOST" →
       rejects_config (ssh_run w "ls")).
Proof.
  intros H.
  specialize (H (with_env [line "SSH_PORT=ssh"] demo_world) {["SSH_PORT" := "ssh"]}).
  assert (Hrejects : rejects_config (ssh_run (with_env [line "SSH_PORT=ssh"] demo_world) "ls")).
  { apply H; [| by left]. eexists. split; [reflexivity | vm_compute; reflexivity]. }
  specialize (Hrejects empty_remote). vm_compute in Hrejects. discriminate Hrejects.
Qed.

(** C5, amended.  When [SSH_PORT] is absent or [int()] reads it, and one of
    host, user and password is absent or empty, each of [scp_copy],
    [ssh_run] and [upload_images] prints the configuration error and calls
    [sys.exit(1)]; the trace holds that one line, so no client was created
    and no connection attempted. *)
Theorem missing_credential_rejected (w : world) (config : gmap string string)
    (key : string) (port : Z) (local_path remote_path command : string) :
  loads w config →
  port_of config = Ok port →
  key ∈ ["SSH_HOST"; "SSH_USER"; "SSH_PASSWORD"] →
  missing config key →
  rejects_config (scp_copy w local_path remote_path)
  ∧ rejects_config (ssh_run w command)
  ∧ rejects_config (upload_images w).
Proof.
  intros Hload Hport Hkey Hmiss.
  pose proof (py_all_false config key Hkey Hmiss) as Hall.
  repeat split; intros r.
  - unfold scp_copy, bind at 1. rewrite (load_env_run w config _ Hload).
    unfold bind, get_port. rewrite Hport, Hall. reflexivity.
  - unfold ssh_run, bind at 1. rewrite (load_env_run w config _ Hload).
    unfold bind, get_port. rewrite Hport, Hall. reflexivity.
  - unfold upload_images, bind at 1. rewrite (load_env_run w config _ Hload).
    unfold bind, get_port. rewrite Hport, Hall. reflexivity.
Qed.

Lemma missing_credential_rejected_witness :
  let w := with_env [line "SSH_HOST=h"; line "SSH_USER=u"; line "SSH_PASSWORD="]
             demo_world in
  rejects_config (scp_copy w "up" "/srv/up")
  ∧ rejects_config (ssh_run w "ls")
  ∧ rejects_config (upload_images w).
Proof.
  intros w.
  apply (missing_credential_rejected w (<["SSH_PASSWORD" := ""]> demo_config)
           "SSH_PASSWORD" 22 "up" "/srv/up" "ls").
  - eexists. split; [reflexivity | vm_compute; reflexivity].
  - reflexivity.
  - set_solver.
  - right. reflexivity.
Defined.

(** ** Exit status of a command *)

(** C2. With a configuration that passes the pre-flight check: when the
    connection is made, the command starts, both streams can be read and
    the remote status is [n], the process ends with [sys.exit(n)]; when
    the server rejects the credentials, the process ends with
    [sys.exit(1)], whatever status the world holds for the command. *)
Theorem ssh_exit_status (w : world) (config : gmap string string) (port : Z)
    (script word : string) (words : list string) (r : remote_fs) :
  loads w config →
  port_of config = Ok port →
  credentials_present config →
  let host := config !! "SSH_HOST" in
  let user := config !! "SSH_USER" in
  let password := config !! "SSH_PASSWORD" in
  let command := String.concat " " (word :: words) in
  let invocation := run (ssh_main w (script :: word :: words)) (init_state r) in
  (∀ out err,
      w_connect w host port user password = None →
      w_exec w command = None →
      w_stdout w = inr out →
      w_stderr w = inr err →
      invocation.1 = Exited (w_exit_status w))
  ∧ (∀ msg,
      w_connect w host port user password = Some (AuthenticationException msg) →
      invocation.1 = Exited 1).
Proof.
  intros Hload Hport Hcred host user password command invocation.
  unfold credentials_present in Hcred.
  assert (Hinv : invocation =
    match ssh_run w command (init_state r) with
    | (Ok code, s) | (Raise (SystemExit code), s) => (Exited code, s)
    | (Raise e, s) => (Uncaught e, s)
    end).
  { subst invocation. unfold run, ssh_main, bind, sys_exit, raise. fold command.
    destruct (ssh_run w command (init_state r)) as [[code | e] s]; reflexivity. }
  rewrite Hinv. clear Hinv invocation.
  generalize dependent command. intros command.
  unfold ssh_run, bind, get_port. rewrite (load_env_run w config _ Hload), Hport.
  cbv zeta. rewrite Hcred.
  fold host user password.
  unfold try_finally, try_except, connect, exec_command, stdout_read,
    stderr_read, recv_exit_status, bind, emit, fault, set_session.
  split.
  - intros out err Hconn Hexec Hout Herr. simpl.
    rewrite Hconn. simpl. rewrite Hexec. simpl. rewrite Hout, Herr. simpl.
    destruct (nonempty (decode_utf8_replace out)),
      (nonempty (decode_utf8_replace err)); reflexivity.
  - intros msg Hconn. simpl. rewrite Hconn. reflexivity.
Qed.

Lemma ssh_exit_status_witness :
  (run (ssh_main demo_world ["ssh_run.py"; "echo"; "hi"])
       (init_state empty_remote)).1 = Exited 17
  ∧ (run (ssh_main auth_failure_world ["ssh_run.py"; "echo"; "hi"])
       (init_state empty_remote)).1 = Exited 1.
Proof.
  split.
  - apply (ssh_exit_status demo_world demo_config 22 "ssh_run.py" "echo" ["hi"]
             empty_remote demo_env_loads eq_refl eq_refl)
      with (out := [x68; x69; x0a]) (err := []); reflexivity.
  - apply (ssh_exit_status auth_failure_world demo_config 22 "ssh_run.py" "echo" ["hi"]
             empty_remote demo_env_loads eq_refl eq_refl)
      with (msg := "Authentication failed.").
    reflexivity.
Defined.

(** ** Reading the output of a command *)

Example decode_euro : decode_utf8_replace [xe2; x82; xac] = [0x20AC].
Proof. reflexivity. Qed.

Example decode_truncated_euro :
  decode_utf8_strict [x68; xe2; x82] = None
  ∧ decode_utf8_replace [x68; xe2; x82] = [0x68; replacement_character]
  ∧ ascii_sanitize (decode_utf8_replace [x68; xe2; x82]) = "h?".
Proof. repeat split. Qed.

Lemma replace_of_marked (l : list (option Z)) :
  (mapM id l = None → replacement_character ∈ default replacement_character <$> l)
  ∧ (∀ text, mapM id l = Some text → default replacement_character <$> l = text).
Proof.
  split.
  - intros H. apply mapM_None_1 in H.
    induction H as [x l Hx | x l _ IH].
    + simpl in Hx. subst x. simpl. apply list_elem_of_here.
    + simpl. apply list_elem_of_further, IH.
  - intros text H. apply mapM_Some_1 in H.
    induction H as [| x y l k Hxy _ IH]; [reflexivity |].
    simpl in Hxy. subst x. rewrite fmap_cons. f_equal. exact IH.
Qed.

(** Where the strict decoder raises, the permissive one yields a text that
    holds U+FFFD; where the strict one succeeds, both agree. *)
Lemma decode_replace_spec (bs : list byte) :
  (decode_utf8_strict bs = None → replacement_character ∈ decode_utf8_replace bs)
  ∧ (∀ text, decode_utf8_strict bs = Some text → decode_utf8_replace bs = text).
Proof. apply replace_of_marked. Qed.

Lemma byte_val_of (z : Z) : 0 <= z < 256 → byte_val (byte_of z) = z.
Proof.
  intros Hz. unfold byte_val, byte_of.
  destruct (Byte.of_N (Z.to_N z)) as [b |] eqn:Hb.
  - apply Byte.to_of_N in Hb. simpl. rewrite Hb. lia.
  - apply Byte.of_N_None_iff in Hb. lia.
Qed.

Lemma byte_of_val (b : byte) : byte_of (byte_val b) = b.
Proof. unfold byte_val, byte_of. by rewrite N2Z.id, Byte.of_to_N. Qed.

Lemma byte_val_range (b : byte) : 0 <= byte_val b < 256.
Proof. unfold byte_val. pose proof (Byte.to_N_bounded b). lia. Qed.

(** Settles the comparisons of the goal that linear arithmetic decides. *)
Ltac zbool :=
  repeat match goal with
  | |- context [?a <=? ?b] =>
      first [ rewrite (proj2 (Z.leb_le a b)) by lia | rewrite (proj2 (Z.leb_gt a b)) by lia ]
  | |- context [?a <? ?b] =>
      first [ rewrite (proj2 (Z.ltb_lt a b)) by lia | rewrite (proj2 (Z.ltb_ge a b)) by lia ]
  | |- context [?a =? ?b] =>
      first [ rewrite (proj2 (Z.eqb_eq a b)) by lia | rewrite (proj2 (Z.eqb_neq a b)) by lia ]
  end.

(** Quotient and remainder of [x] by [k], as linear facts. *)
Ltac dm x k :=
  pose proof (Z.div_mod x k ltac:(lia)); pose proof (Z.mod_pos_bound x k ltac:(lia)).

Ltac scan_step :=
  cbn [app utf8_scan]; rewrite ?byte_val_of by lia; unfold lead, continue;
  repeat (zbool; cbn [andb d_cp d_needed d_lower d_upper]).

(** The decoder reads back what the encoder wrote for one code point. *)
Lemma scan_char (cp : Z) (rest : list byte) :
  scalar_value cp →
  utf8_scan None (encode_utf8_char cp ++ rest) = Some cp :: utf8_scan None rest.
Proof.
  intros [Hrange Hsur]. unfold encode_utf8_char.
  dm cp 64. dm (cp / 64) 64. dm (cp / 64 / 64) 64.
  destruct (Z.ltb_spec cp 0x80);
    [| destruct (Z.ltb_spec cp 0x800); [| destruct (Z.ltb_spec cp 0x10000)]].
  - scan_step. reflexivity.
  - scan_step. f_equal. f_equal.
    dm (192 + cp / 64) 32. dm (128 + cp mod 64) 64. lia.
  - destruct (Z.eq_dec (cp / 64 / 64) 0), (Z.eq_dec (cp / 64 / 64) 13); try lia;
      scan_step; f_equal; f_equal;
      dm (224 + cp / 64 / 64) 16; dm (128 + (cp / 64) mod 64) 64;
      dm (128 + cp mod 64) 64; lia.
  - destruct (Z.eq_dec (cp / 64 / 64 / 64) 0), (Z.eq_dec (cp / 64 / 64 / 64) 4); try lia;
      scan_step; f_equal; f_equal;
      dm (240 + cp / 64 / 64 / 64) 8; dm (128 + (cp / 64 / 64) mod 64) 64;
      dm (128 + (cp / 64) mod 64) 64; dm (128 + cp mod 64) 64; lia.
Qed.

Lemma decode_encode (text : list Z) :
  Forall scalar_value text →
  decode_utf8_strict (encode_utf8 text) = Some text.
Proof.
  unfold decode_utf8_strict, encode_utf8.
  induction 1 as [| cp text Hcp _ IH]; [reflexivity |].
  cbn [mbind list_bind]. rewrite scan_char by exact Hcp.
  cbn [mapM]. rewrite IH. reflexivity.
Qed.

Lemma mapM_id_cons_Some (c : Z) (l : list (option Z)) (text : list Z) :
  mapM id (Some c :: l) = Some text →
  ∃ text', text = c :: text' ∧ mapM id l = Some text'.
Proof.
  cbn [mapM]. destruct (mapM id l) as [text' |]; [| discriminate].
  intros [= <-]. by exists text'.
Qed.

Lemma mapM_id_cons_None (l : list (option Z)) (text : list Z) :
  mapM id (None :: l) = Some text → False.
Proof. discriminate. Qed.

(** Splits on the test of the first conditional in [H]. *)
Ltac split_if H :=
  match type of H with
  | context [if ?c then _ else _] =>
      let E := fresh "E" in
      destruct c eqn:E;
      rewrite ?andb_true_iff, ?andb_false_iff, ?Z.leb_le, ?Z.leb_gt,
        ?Z.eqb_eq, ?Z.eqb_neq in E
  end.

(** The scan in [H] reads one more byte, [b]. *)
Ltac next_byte H bs b r :=
  destruct bs as [| b r]; [by apply mapM_id_cons_None in H |];
  cbn [utf8_scan] in H; pose proof (byte_val_range b);
  unfold continue in H; cbn [d_cp d_needed d_lower d_upper] in H.

(** The scan in [H] produced a code point; the rest is by induction. *)
Ltac finish_char IH H Hlen :=
  apply mapM_id_cons_Some in H as (? & -> & H);
  apply IH in H as [-> ?]; [| cbn [length] in Hlen; lia].

Ltac same_byte b :=
  transitivity (byte_of (byte_val b)); [symmetry; apply byte_of_val | f_equal].

(** What the strict decoder accepts is the encoding of what it returns. *)
Lemma strict_inv (n : nat) :
  ∀ bs text,
    (length bs < n)%nat →
    mapM id (utf8_scan None bs) = Some text →
    bs = encode_utf8 text ∧ Forall scalar_value text.
Proof.
  induction n as [| n IH]; [lia |]. intros bs text Hlen H.
  destruct bs as [| b1 r1]; [injection H as <-; by split |].
  cbn [utf8_scan] in H. pose proof (byte_val_range b1). unfold lead in H.
  split_if H; [| split_if H; [| split_if H; [| split_if H]]].
  all: try (by apply mapM_id_cons_None in H).
  - finish_char IH H Hlen.
    split; [| constructor; [unfold scalar_value; lia | assumption]].
    unfold encode_utf8. cbn [mbind list_bind]. unfold encode_utf8_char. zbool.
    by rewrite byte_of_val.
  - next_byte H r1 b2 r2.
    split_if H; [| by apply mapM_id_cons_None in H].
    finish_char IH H Hlen.
    remember (64 * (byte_val b1 mod 32) + byte_val b2 mod 64) as cp eqn:Hcp.
    dm (byte_val b1) 32. dm (byte_val b2) 64. dm cp 64.
    split; [| constructor; [unfold scalar_value; lia | assumption]].
    unfold encode_utf8. cbn [mbind list_bind]. unfold encode_utf8_char. zbool. cbn [app].
    f_equal; [same_byte b1; lia | f_equal; same_byte b2; lia].
  - next_byte H r1 b2 r2.
    destruct (Z.eqb_spec (byte_val b1) 224), (Z.eqb_spec (byte_val b1) 237); try lia;
      (split_if H; [| by apply mapM_id_cons_None in H]);
      next_byte H r2 b3 r3;
      (split_if H; [| by apply mapM_id_cons_None in H]);
      finish_char IH H Hlen;
      remember (64 * (64 * (byte_val b1 mod 16) + byte_val b2 mod 64) + byte_val b3 mod 64)
        as cp eqn:Hcp;
      dm (byte_val b1) 16; dm (byte_val b2) 64; dm (byte_val b3) 64;
      dm cp 64; dm (cp / 64) 64;
      (split; [| constructor; [unfold scalar_value; lia | assumption]]);
      unfold encode_utf8; cbn [mbind list_bind]; unfold encode_utf8_char; zbool; cbn [app];
      (f_equal; [same_byte b1; lia | f_equal; [same_byte b2; lia | f_equal; same_byte b3; lia]]).
  - next_byte H r1 b2 r2.
    destruct (Z.eqb_spec (byte_val b1) 240), (Z.eqb_spec (byte_val b1) 244); try lia;
      (split_if H; [| by apply mapM_id_cons_None in H]);
      next_byte H r2 b3 r3;
      (split_if H; [| by apply mapM_id_cons_None in H]);
      next_byte H r3 b4 r4;
      (split_if H; [| by apply mapM_id_cons_None in H]);
      finish_char IH H Hlen;
      remember (64 * (64 * (64 * (byte_val b1 mod 8) + byte_val b2 mod 64)
                      + byte_val b3 mod 64) + byte_val b4 mod 64) as cp eqn:Hcp;
      dm (byte_val b1) 8; dm (byte_val b2) 64; dm (byte_val b3) 64; dm (byte_val b4) 64;
      dm cp 64; dm (cp / 64) 64; dm (cp / 64 / 64) 64;
      (split; [| constructor; [unfold scalar_value; lia | assumption]]);
      unfold encode_utf8; cbn [mbind list_bind]; unfold encode_utf8_char; zbool; cbn [app];
      (f_equal; [same_byte b1; lia
                | f_equal; [same_byte b2; lia
                           | f_equal; [same_byte b3; lia | f_equal; same_byte b4; lia]]]).
Qed.

(** The strict decoder succeeds exactly on the UTF-8 form of a text, and
    returns that text. *)
Lemma decode_strict_spec (bs : list byte) (text : list Z) :
  decode_utf8_strict bs = Some text ↔ bs = encode_utf8 text ∧ Forall scalar_value text.
Proof.
  split.
  - apply (strict_inv (S (length bs))). lia.
  - intros [-> Hs]. by apply decode_encode.
Qed.

(** With [errors='replace']: bytes that are the UTF-8 form of a text decode
    to that text; in the text of any other bytes U+FFFD stands in. *)
Lemma decode_replace_total (bs : list byte) :
  (∀ text, Forall scalar_value text → bs = encode_utf8 text → decode_utf8_replace bs = text)
  ∧ (¬ decodable bs → replacement_character ∈ decode_utf8_replace bs).
Proof.
  split.
  - intros text Hs ->. apply decode_replace_spec. by apply decode_encode.
  - intros Hno. apply decode_replace_spec.
    destruct (decode_utf8_strict bs) as [text |] eqn:Hstrict; [| reflexivity].
    apply decode_strict_spec in Hstrict as [-> Hs]. destruct Hno. by exists text.
Qed.

(** Where the scan finds no character, none begins. *)
Lemma scan_not_start (bs : list byte) (tl : list (option Z)) :
  utf8_scan None bs = None :: tl → ¬ well_formed_start bs.
Proof.
  intros Hscan (cp & rest & Hcp & ->). rewrite scan_char in Hscan by exact Hcp.
  discriminate Hscan.
Qed.

(** What the scan reads as one character is the UTF-8 form of it. *)
Lemma scan_is_character (p : list byte) (cp : Z) :
  utf8_scan None p = [Some cp] → scalar_value cp ∧ p = encode_utf8_char cp.
Proof.
  intros Hscan.
  assert (Hstrict : decode_utf8_strict p = Some [cp])
    by (unfold decode_utf8_strict; by rewrite Hscan).
  apply decode_strict_spec in Hstrict as [-> Hs]. split; [by inversion Hs |].
  unfold encode_utf8. cbn [mbind list_bind]. apply app_nil_r.
Qed.

Lemma character_scans (q : list byte) :
  starts_character q → ∃ rest cp, utf8_scan None (q ++ rest) = [Some cp].
Proof.
  intros (cp & rest & Hcp & Hq). exists rest, cp.
  rewrite <- Hq, <- (app_nil_r (encode_utf8_char cp)). by rewrite scan_char.
Qed.

Lemma longer_prefix (p : list byte) (b : byte) (r q : list byte) :
  q `prefix_of` (p ++ b :: r)%list → (length p < length q)%nat →
  ∃ q', q = (p ++ b :: q')%list.
Proof.
  revert q. induction p as [| a p IH]; intros q [k Hk] Hlen.
  - destruct q as [| x q]; [cbn in Hlen; lia |]. cbn [app] in Hk.
    injection Hk as -> _. by exists q.
  - destruct q as [| x q]; [cbn in Hlen; lia |]. cbn [app] in Hk.
    injection Hk as -> Hk. destruct (IH q) as [q' ->]; [by exists k | cbn in Hlen; lia |].
    by exists q'.
Qed.

(** A sequence that awaits continuation bytes in the usual range can be
    completed. *)
Lemma normal_completes (n : nat) :
  ∀ cp0, ∃ pad cp,
    utf8_scan (Some {| d_cp := cp0; d_needed := n; d_lower := 0x80; d_upper := 0xBF |}) pad
    = [Some cp].
Proof.
  induction n as [| n IH]; intros cp0; [by exists [x80]; eexists |].
  destruct n as [| n]; [by exists [x80]; eexists |].
  destruct (IH (64 * cp0 + byte_val x80 mod 64)) as (pad & cp & Hpad).
  exists (x80 :: pad), cp. exact Hpad.
Qed.

Lemma continue_completes (st st' : pending) (v : Z) :
  continue st v = More st' → ∃ pad cp, utf8_scan (Some st') pad = [Some cp].
Proof.
  unfold continue. destruct (_ && _); [| discriminate].
  destruct (d_needed st) as [| [| n]]; [discriminate | discriminate |].
  intros [= <-]. apply normal_completes.
Qed.

Lemma lead_completes (v : Z) (st : pending) :
  lead v = More st → ∃ pad cp, utf8_scan (Some st) pad = [Some cp].
Proof.
  unfold lead. intros H.
  split_if H; [discriminate H |].
  split_if H; [injection H as <-; by exists [x80]; eexists |].
  split_if H.
  { injection H as <-.
    destruct (Z.eqb_spec v 224), (Z.eqb_spec v 237); try lia;
      [by exists [xa0; x80]; eexists | by exists [x80; x80]; eexists
      | by exists [x80; x80]; eexists]. }
  split_if H; [| discriminate H].
  injection H as <-.
  destruct (Z.eqb_spec v 240), (Z.eqb_spec v 244); try lia;
    [by exists [x90; x80; x80]; eexists | by exists [x80; x80; x80]; eexists
    | by exists [x80; x80; x80]; eexists].
Qed.

(** The decoder in the middle of a sequence: [p] has been read, [st] is
    the state, and [rest] is still to come. *)
Lemma pending_replaced (rest : list byte) :
  ∀ (p : list byte) (st : pending),
    (∀ tail, utf8_scan None (p ++ tail) = utf8_scan (Some st) tail) →
    (∃ pad cp, utf8_scan (Some st) pad = [Some cp]) →
    (∀ bs, (length bs <= length rest)%nat → replaced bs (decode_utf8_replace bs)) →
    replaced (p ++ rest) (decode_utf8_replace (p ++ rest)).
Proof.
  induction rest as [| b r IHr]; intros p st Hread Hcompletes IH.
  all: assert (Hp : p ≠ [])
         by (intros ->; specialize (Hread []); discriminate Hread).
  all: assert (Hstarts : starts_character p)
         by (destruct Hcompletes as (pad & cp & Hpad); rewrite <- Hread in Hpad;
             apply scan_is_character in Hpad as [Hcp Hpad]; by exists cp, pad).
  - unfold decode_utf8_replace. rewrite Hread. cbn [utf8_scan fmap list_fmap default].
    apply replaced_part; [| constructor].
    split; [| split; [exact Hp | split; [by right |]]].
    + apply (scan_not_start _ []). by rewrite Hread.
    + intros q Hq Hlen. apply prefix_length in Hq. rewrite app_nil_r in Hq. lia.
  - unfold decode_utf8_replace. rewrite Hread. cbn [utf8_scan].
    destruct (continue st (byte_val b)) as [cp | st' |] eqn:Hcont.
    + assert (Hchar : utf8_scan None ((p ++ [b]) ++ []) = [Some cp]).
      { rewrite <- app_assoc, Hread. cbn [app utf8_scan]. by rewrite Hcont. }
      rewrite app_nil_r in Hchar. apply scan_is_character in Hchar as [Hcp Hchar].
      rewrite fmap_cons. cbn [default].
      replace (p ++ b :: r)%list with (encode_utf8_char cp ++ r)%list
        by (by rewrite <- Hchar, <- app_assoc).
      apply replaced_char; [exact Hcp |]. apply IH. cbn [length]. lia.
    + replace (p ++ b :: r)%list with ((p ++ [b]) ++ r)%list by (by rewrite <- app_assoc).
      assert (Hread' : ∀ tail, utf8_scan None ((p ++ [b]) ++ tail) = utf8_scan (Some st') tail).
      { intros tail. rewrite <- app_assoc, Hread. cbn [app utf8_scan]. by rewrite Hcont. }
      specialize (IHr (p ++ [b])%list st' Hread' (continue_completes _ _ _ Hcont)).
      unfold decode_utf8_replace in IHr. rewrite Hread' in IHr. apply IHr.
      intros bs Hlen. apply IH. cbn [length]. lia.
    + assert (Hbad : ∀ tail, utf8_scan None (p ++ b :: tail)
                             = None :: utf8_scan None (b :: tail)).
      { intros tail. rewrite Hread. cbn [utf8_scan]. by rewrite Hcont. }
      change (replaced (p ++ b :: r)
                (default replacement_character <$> None :: utf8_scan None (b :: r))).
      rewrite fmap_cons. cbn [default].
      apply replaced_part; [| apply IH; reflexivity].
      split; [| split; [exact Hp | split; [by right |]]].
      * apply (scan_not_start _ _ (Hbad r)).
      * intros q Hq Hlen Hchar.
        destruct (longer_prefix p b r q Hq Hlen) as [q' ->].
        apply character_scans in Hchar as (rest & cp & Hscan).
        rewrite <- app_assoc in Hscan. cbn [app] in Hscan. rewrite Hbad in Hscan.
        discriminate Hscan.
Qed.

(** The text that [errors='replace'] gives is the text the specification
    describes. *)
Lemma decode_replaced_upto (n : nat) :
  ∀ bs, (length bs < n)%nat → replaced bs (decode_utf8_replace bs).
Proof.
  induction n as [| n IH]; [lia |]. intros bs Hlen.
  destruct bs as [| b r]; [constructor |].
  assert (IHr : ∀ bs', (length bs' <= length r)%nat → replaced bs' (decode_utf8_replace bs'))
    by (intros bs' Hlen'; apply IH; cbn [length] in Hlen; lia).
  destruct (lead (byte_val b)) as [cp | st |] eqn:Hlead.
  - assert (Hchar : utf8_scan None [b] = [Some cp]) by (cbn [utf8_scan]; by rewrite Hlead).
    apply scan_is_character in Hchar as [Hcp Hchar].
    unfold decode_utf8_replace. cbn [utf8_scan]. rewrite Hlead, fmap_cons. cbn [default].
    change (b :: r) with ([b] ++ r)%list. rewrite Hchar.
    apply replaced_char; [exact Hcp | by apply IHr].
  - apply (pending_replaced r [b] st); [| by apply (lead_completes (byte_val b)) | exact IHr].
    intros tail. cbn [app utf8_scan]. by rewrite Hlead.
  - assert (Hbad : ∀ tail, utf8_scan None (b :: tail) = None :: utf8_scan None tail)
      by (intros tail; cbn [utf8_scan]; by rewrite Hlead).
    unfold decode_utf8_replace. rewrite Hbad, fmap_cons. cbn [default].
    apply (replaced_part [b] r); [| by apply IHr].
    split; [| split; [discriminate | split; [by left |]]].
    + apply (scan_not_start _ _ (Hbad r)).
    + intros q Hq Hlen' Hchar.
      destruct (longer_prefix [] b r q Hq) as [q' ->]; [cbn [length] in *; lia |].
      apply character_scans in Hchar as (rest & cp & Hscan).
      cbn [app] in Hscan. rewrite Hbad in Hscan. discriminate Hscan.
Qed.

Lemma decode_replaced (bs : list byte) : replaced bs (decode_utf8_replace bs).
Proof. apply (decode_replaced_upto (S (length bs))). lia. Qed.

Lemma character_first (cp cp' : Z) (rest rest' : list byte) :
  scalar_value cp → scalar_value cp' →
  (encode_utf8_char cp ++ rest)%list = (encode_utf8_char cp' ++ rest')%list →
  cp = cp' ∧ rest = rest'.
Proof.
  intros Hcp Hcp' Heq.
  assert (Hscan : utf8_scan None (encode_utf8_char cp ++ rest)
                  = utf8_scan None (encode_utf8_char cp' ++ rest')) by (by rewrite Heq).
  rewrite !scan_char in Hscan by assumption. injection Hscan as -> _.
  split; [reflexivity |]. by apply app_inv_head in Heq.
Qed.

Lemma replaced_not_empty (cp : Z) (rest : list byte) :
  scalar_value cp → (encode_utf8_char cp ++ rest)%list ≠ [].
Proof.
  intros Hcp Heq. pose proof (scan_char cp rest Hcp) as Hscan.
  rewrite Heq in Hscan. discriminate Hscan.
Qed.

(** The description leaves no choice: the bytes decide the text. *)
Lemma replaced_functional (bs : list byte) (text1 text2 : list Z) :
  replaced bs text1 → replaced bs text2 → text1 = text2.
Proof.
  intros H1. revert text2.
  induction H1 as [| cp rest text Hcp _ IH | p rest text Hpart _ IH]; intros text2 H2.
  - inversion H2 as [| cp' rest' text' Hcp' _ Heq | p' rest' text' Hpart' _ Heq];
      [reflexivity | by apply replaced_not_empty in Heq |].
    destruct Hpart' as (_ & Hp' & _). by apply app_eq_nil in Heq as [-> _].
  - inversion H2 as [Heq | cp' rest' text' Hcp' Hrest' Heq | p' rest' text' Hpart' _ Heq].
    + symmetry in Heq. by apply replaced_not_empty in Heq.
    + apply character_first in Heq as [-> ->]; [| assumption ..].
      f_equal. by apply IH.
    + destruct Hpart' as (Hno & _). destruct Hno. rewrite Heq. by exists cp, rest.
  - inversion H2 as [Heq | cp' rest' text' Hcp' _ Heq | p' rest' text' Hpart' Hrest' Heq].
    + destruct Hpart as (_ & Hp & _). symmetry in Heq. by apply app_eq_nil in Heq as [-> _].
    + destruct Hpart as (Hno & _). destruct Hno. rewrite <- Heq. by exists cp', rest'.
    + destruct Hpart as (_ & Hp & Hone & Hmax).
      destruct Hpart' as (_ & Hp' & Hone' & Hmax').
      assert (Hlen : length p = length p').
      { destruct (Nat.lt_trichotomy (length p) (length p')) as [Hlt | [Heq' | Hgt]];
          [| exact Heq' |].
        - destruct (Hmax p'); [rewrite <- Heq; by exists rest' | exact Hlt |].
          destruct Hone' as [Hone' | Hone']; [| exact Hone'].
          destruct p as [| x p]; [done | cbn [length] in Hlt; lia].
        - destruct (Hmax' p); [by exists rest | exact Hgt |].
          destruct Hone as [Hone | Hone]; [| exact Hone].
          destruct p' as [| x p']; [done | cbn [length] in Hgt; lia]. }
      apply app_inj_1 in Heq as [-> ->]; [| by symmetry].
      f_equal. by apply IH.
Qed.

(** The text the specification describes is the text that
    [decode('utf-8', errors='replace')] returns, and no other. *)
Lemma replaced_decode (bs : list byte) (text : list Z) :
  replaced bs text ↔ text = decode_utf8_replace bs.
Proof.
  split.
  - intros H. exact (replaced_functional bs text _ H (decode_replaced bs)).
  - intros ->. apply decode_replaced.
Qed.

(** C6. Once connected and the command started, whatever bytes the two
    streams hold, [ssh_run] reads standard output whole, then standard
    error whole, and only then asks for the exit status; it returns that
    status.  Decoding cannot fail, and the text it gives is the one the
    specification describes, which the bytes determine: every character
    of the stream stands in the text, in its place, and each part of the
    stream that cannot be decoded is replaced by one U+FFFD, after which
    reading goes on.  So the text of a stream that is not the UTF-8 form
    of any text holds U+FFFD, and the text of a stream that is valid UTF-8
    is the text that was encoded. *)
Theorem ssh_run_reads_then_status (w : world) (config : gmap string string)
    (port : Z) (command : string) (r : remote_fs) (out err : list byte) :
  loads w config →
  port_of config = Ok port →
  credentials_present config →
  let host := config !! "SSH_HOST" in
  let user := config !! "SSH_USER" in
  let password := config !! "SSH_PASSWORD" in
  w_connect w host port user password = None →
  w_exec w command = None →
  w_stdout w = inr out →
  w_stderr w = inr err →
  let output := decode_utf8_replace out in
  let errors := decode_utf8_replace err in
  (∃ s,
     ssh_run w command (init_state r) = (Ok (w_exit_status w), s)
     ∧ trace s =
         ([ENewClient; ESetPolicy; EConnect host port user password 30;
           EExec command; EReadStdout; EReadStderr; ERecvExit]
          ++ (if nonempty output then [EStdout (ascii_sanitize output)] else [])
          ++ (if nonempty errors then [EStderr (ascii_sanitize errors)] else [])
          ++ [EClose])%list)
  ∧ (∀ text, replaced out text ↔ text = output)
  ∧ (∀ text, replaced err text ↔ text = errors)
  ∧ (¬ decodable out → replacement_character ∈ output)
  ∧ (¬ decodable err → replacement_character ∈ errors)
  ∧ (∀ text, Forall scalar_value text → out = encode_utf8 text → output = text)
  ∧ (∀ text, Forall scalar_value text → err = encode_utf8 text → errors = text).
Proof.
  intros Hload Hport Hcred host user password Hconn Hexec Hout Herr output errors.
  unfold credentials_present in Hcred.
  split; [| split; [intros text; apply replaced_decode |
            split; [intros text; apply replaced_decode |]];
            pose proof (decode_replace_total out) as [? ?];
            pose proof (decode_replace_total err) as [? ?];
            subst output errors; by repeat split ].
  unfold ssh_run, bind at 1. rewrite (load_env_run w config _ Hload).
  unfold bind, get_port. rewrite Hport. cbv zeta. rewrite Hcred.
  fold host user password.
  unfold try_finally, try_except, connect, exec_command, stdout_read,
    stderr_read, recv_exit_status, bind, emit, fault, set_session.
  simpl. rewrite Hconn. simpl. rewrite Hexec. simpl. rewrite Hout, Herr. simpl.
  fold output errors.
  destruct (nonempty output), (nonempty errors); eexists; split; reflexivity.
Qed.

Lemma ssh_run_reads_then_status_witness :
  ∃ s,
    ssh_run garbled_world "cat f" (init_state empty_remote) = (Ok 17, s)
    ∧ trace s =
        [ENewClient; ESetPolicy; EConnect (Some "h") 22 (Some "u") (Some "p") 30;
         EExec "cat f"; EReadStdout; EReadStderr; ERecvExit;
         EStdout (line "a?b?"); EStderr "?"; EClose]
    ∧ replaced [x61; xe2; x82; x62; xff; x0a]
        [0x61; replacement_character; 0x62; replacement_character; 0x0A]
    ∧ replaced [xc3] [replacement_character].
Proof.
  destruct (ssh_run_reads_then_status garbled_world
              demo_config 22 "cat f" empty_remote [x61; xe2; x82; x62; xff; x0a] [xc3]
              demo_env_loads eq_refl eq_refl eq_refl eq_refl eq_refl eq_refl)
    as ((s & Hrun & Htrace) & Hout & Herr & _).
  exists s. split; [exact Hrun |]. split; [exact Htrace |].
  split; [by apply Hout | by apply Herr].
Defined.

(** ** The upload loop *)

Lemma sftp_put_run (w : world) (f : node) (remote_file : string) (s : state) :
  sftp_put w f remote_file s =
  match put_error w f remote_file with
  | Some e => (Raise e, advance [EPut (node_str f) remote_file] (remote s) (session s) s)
  | None =>
      (Ok tt,
       advance [EPut (node_str f) remote_file]
         {| r_dirs := r_dirs (remote s);
            r_files := <[remote_file := node_str f]> (r_files (remote s)) |}
         (session s) s)
  end.
Proof.
  unfold sftp_put, put_error, bind, emit, fault, get_remote, set_remote, advance.
  destruct (is_file f); simpl; [| reflexivity].
  destruct (w_put_fault w (node_str f) remote_file); reflexivity.
Qed.

Lemma upload_loop_ok (w : world) (remote_path : string) (total : nat)
    (files : list node) :
  uploads_ok w remote_path files →
  ∀ i s,
    upload_loop w remote_path total i files s =
    (Ok tt,
     advance (loop_trace remote_path total i files)
       (uploaded remote_path files (remote s)) (session s) s).
Proof.
  induction 1 as [| f rest Hf _ IH]; intros i s.
  - unfold advance; simpl. rewrite app_nil_r. by destruct s.
  - cbn [upload_loop loop_trace]. unfold bind at 1. rewrite sftp_put_run.
    fold (destination remote_path f). rewrite Hf. unfold bind.
    destruct (((i + 1) mod 10 =? 0)%nat || (i + 1 =? total)%nat).
    + unfold println, print, emit. rewrite IH.
      unfold advance; cbn [trace remote session]. by rewrite <- !app_assoc.
    + unfold ret. rewrite IH.
      unfold advance; cbn [trace remote session]. by rewrite <- !app_assoc.
Qed.

Lemma upload_loop_fails (w : world) (remote_path : string) (total : nat)
    (before : list node) (f : node) (after : list node) (e : exn) :
  uploads_ok w remote_path before →
  put_error w f (destination remote_path f) = Some e →
  ∀ i s,
    upload_loop w remote_path total i (before ++ f :: after) s =
    (Raise e,
     advance (loop_trace remote_path total i before
              ++ [EPut (node_str f) (destination remote_path f)])
       (uploaded remote_path before (remote s)) (session s) s).
Proof.
  intros Hbefore Hf. induction Hbefore as [| g rest Hg _ IH]; intros i s.
  - cbn [app upload_loop loop_trace]. unfold bind at 1. rewrite sftp_put_run.
    fold (destination remote_path f). rewrite Hf. reflexivity.
  - cbn [app upload_loop loop_trace]. unfold bind at 1. rewrite sftp_put_run.
    fold (destination remote_path g). rewrite Hg. unfold bind.
    destruct (((i + 1) mod 10 =? 0)%nat || (i + 1 =? total)%nat).
    + unfold println, print, emit. rewrite IH.
      unfold advance; cbn [trace remote session]. by rewrite <- !app_assoc.
    + unfold ret. rewrite IH.
      unfold advance; cbn [trace remote session]. by rewrite <- !app_assoc.
Qed.

(** A batch either uploads whole or has a first file that fails. *)
Lemma first_failure (w : world) (remote_path : string) (files : list node) :
  uploads_ok w remote_path files
  ∨ ∃ before f after e,
      files = (before ++ f :: after)%list
      ∧ uploads_ok w remote_path before
      ∧ put_error w f (destination remote_path f) = Some e.
Proof.
  induction files as [| f rest IH]; [left; constructor |].
  destruct (put_error w f (destination remote_path f)) as [e |] eqn:Hf.
  - right. exists [], f, rest, e. repeat split; [constructor | exact Hf].
  - destruct IH as [Hok | (before & g & after & e & -> & Hok & Hg)].
    + left. by constructor.
    + right. exists (f :: before), g, after, e. repeat split; [by constructor | exact Hg].
Qed.

(** Runs the straight-line part of a script on an explicit state. *)
Ltac exec_step :=
  unfold try_finally, try_except, bind, println, println_err, print, print_err,
    SSHClient, set_missing_host_key_policy, connect, open_sftp, sftp_close,
    close, emit, set_session, get_session, fault, ret, raise, sys_exit;
  cbn [trace remote session app negb nonempty is_file init_state close_session].
Ltac exec := repeat progress exec_step.

(** ** Directory upload with [scp_copy] *)

Lemma glob_star (str name : string) (children : list node) :
  glob "*" (NDir str name children) = children.
Proof.
  unfold glob. induction children as [| c rest IH]; [reflexivity |].
  rewrite filter_cons_True by reflexivity. by rewrite IH.
Qed.

Lemma mkdir_swallowed (w : world) (path : string) (s : state) :
  (∀ e, w_mkdir_fault w path = Some e → is_IOError e = true) →
  try_except (sftp_mkdir w path) pass_IOError s =
  (Ok tt, advance [EMkdir path] (after_mkdir w path (remote s)) (session s) s).
Proof.
  intros Hio.
  unfold try_except, sftp_mkdir, after_mkdir, bind, emit, fault, get_remote,
    set_remote, pass_IOError, advance.
  destruct (w_mkdir_fault w path) as [e |] eqn:He; cbn [trace remote session].
  - unfold raise. rewrite (Hio e eq_refl). reflexivity.
  - unfold ret, raise. cbn [trace remote session].
    destruct (bool_decide (path ∈ r_dirs (remote s))); reflexivity.
Qed.

Lemma handlers_run {A} (on_error : M A) (e : exn) :
  is_Exception e = true →
  handlers on_error e = Some (println_err (handler_message e) ;; on_error).
Proof. destruct e; intros H; try discriminate H; reflexivity. Qed.

Lemma handlers_none {A} (on_error : M A) (e : exn) :
  is_Exception e = false → handlers on_error e = None.
Proof. destruct e; intros H; try discriminate H; reflexivity. Qed.

Section Directory.

Variables (w : world) (config : gmap string string) (port : Z).
Variables (local_path remote_path : string) (r : remote_fs).
Variables (str name : string) (children : list node).

Let host := config !! "SSH_HOST".
Let user := config !! "SSH_USER".
Let password := config !! "SSH_PASSWORD".
Let files := filter (λ f, is_file f = true) children.
Let total := length files.

Hypothesis Hload : loads w config.
Hypothesis Hport : port_of config = Ok port.
Hypothesis Hcred : credentials_present config.
Hypothesis Hconnect : w_connect w host port user password = None.
Hypothesis Hsftp : w_open_sftp w = None.
Hypothesis Hlocal : w_fs w local_path = Some (NDir str name children).

(** What the trace holds when the channel is open. *)
Let opened : list event :=
  [EStdout (line ("Connecting to " +:+ fmt host +:+ "...")); ENewClient; ESetPolicy;
   EConnect host port user password 30; EOpenSftp].

Lemma scp_copy_no_files :
  files = [] →
  scp_copy w local_path remote_path (init_state r) =
  (Ok 0,
   {| trace := opened ++ [EStdout (line "No files found to upload."); EClose];
      remote := r; session := Closed |}).
Proof.
  intros Hfiles. unfold credentials_present in Hcred.
  unfold scp_copy, bind at 1. rewrite (load_env_run w config _ Hload).
unfold bind at 1, get_port. rewrite Hport. cbv zeta. rewrite Hcred, Hlocal.
  fold host user password. rewrite glob_star. fold files. rewrite Hfiles.
  exec. rewrite Hconnect. exec. rewrite Hsftp. reflexivity.
Qed.

Hypothesis Hmkdir : ∀ e, w_mkdir_fault w remote_path = Some e → is_IOError e = true.

(** What the trace holds when the loop starts. *)
Let started : list event :=
  opened ++ [EMkdir remote_path;
             EStdout (line ("Uploading " +:+ pretty total +:+ " files..."))].

Lemma scp_copy_batch_ok :
  files ≠ [] →
  uploads_ok w remote_path files →
  scp_copy w local_path remote_path (init_state r) =
  (Ok 0,
   {| trace := started ++ loop_trace remote_path total 0 files
               ++ [EStdout (line ("Done! Uploaded " +:+ pretty total +:+ " files."));
                   ESftpClose; EClose];
      remote := uploaded remote_path files (after_mkdir w remote_path r);
      session := Closed |}).
Proof.
  intros Hfiles Hok. unfold credentials_present in Hcred.
  unfold scp_copy, bind at 1. rewrite (load_env_run w config _ Hload).
unfold bind at 1, get_port. rewrite Hport. cbv zeta. rewrite Hcred, Hlocal.
  fold host user password. rewrite glob_star. fold files total.
  assert (Hne : nonempty files = true).
  { revert Hfiles. generalize files. by intros [| f0 rest]. }
  rewrite Hne.
  set (mkdir := try_except (sftp_mkdir w remote_path) pass_IOError).
  set (loop := upload_loop w remote_path total 0 files).
  exec. rewrite Hconnect. exec. rewrite Hsftp.
  subst mkdir. rewrite mkdir_swallowed by exact Hmkdir.
  unfold advance. exec.
  subst loop. rewrite upload_loop_ok by exact Hok.
  unfold advance. exec.
  subst started opened. cbn [app]. rewrite <- !app_assoc. reflexivity.
Qed.

Lemma scp_copy_batch_fails (before : list node) (f : node) (after : list node)
    (e : exn) :
  files = (before ++ f :: after)%list →
  uploads_ok w remote_path before →
  put_error w f (destination remote_path f) = Some e →
  scp_copy w local_path remote_path (init_state r) =
  (if is_Exception e then Ok 1 else Raise e,
   {| trace := started ++ loop_trace remote_path total 0 before
               ++ [EPut (node_str f) (destination remote_path f)]
               ++ (if is_Exception e then [EStderr (line (handler_message e))] else [])
               ++ [EClose];
      remote := uploaded remote_path before (after_mkdir w remote_path r);
      session := Closed |}).
Proof.
  intros Hfiles Hok Hf. unfold credentials_present in Hcred.
  unfold scp_copy, bind at 1. rewrite (load_env_run w config _ Hload).
unfold bind at 1, get_port. rewrite Hport. cbv zeta. rewrite Hcred, Hlocal.
  fold host user password. rewrite glob_star. fold files total.
  assert (Hne : nonempty files = true) by (rewrite Hfiles; by destruct before).
  rewrite Hne.
  set (mkdir := try_except (sftp_mkdir w remote_path) pass_IOError).
  set (loop := upload_loop w remote_path total 0 files).
  exec. rewrite Hconnect. exec. rewrite Hsftp.
  subst mkdir. rewrite mkdir_swallowed by exact Hmkdir.
  unfold advance. exec.
  subst loop. rewrite Hfiles at 1.
  rewrite (upload_loop_fails w remote_path total before f after e Hok Hf).
  unfold advance. destruct (is_Exception e) eqn:He.
  - rewrite handlers_run by exact He. exec.
    subst started opened. cbn [app]. rewrite <- !app_assoc. reflexivity.
  - rewrite handlers_none by exact He. exec.
    subst started opened. cbn [app]. rewrite <- !app_assoc. reflexivity.
Qed.

End Directory.

(** ** Image upload *)

Section Images.

Variables (w : world) (config : gmap string string) (port : Z).
Variables (r : remote_fs) (dir : node).

Let host := config !! "SSH_HOST".
Let user := config !! "SSH_USER".
Let password := config !! "SSH_PASSWORD".
Let files := (glob "*.png" dir ++ glob "*.jpg" dir ++ glob "*.webp" dir)%list.
Let total := length files.

Hypothesis Hload : loads w config.
Hypothesis Hport : port_of config = Ok port.
Hypothesis Hcred : credentials_present config.
Hypothesis Hconnect : w_connect w host port user password = None.
Hypothesis Hsftp : w_open_sftp w = None.
Hypothesis Hlocal : w_fs w (local_dir w) = Some dir.
Hypothesis Hmkdir : ∀ e, w_mkdir_fault w remote_dir = Some e → is_IOError e = true.

Let ensured : list event :=
  [EStdout (line ("Connecting to " +:+ fmt host +:+ "...")); ENewClient; ESetPolicy;
   EConnect host port user password 30; EOpenSftp; EMkdir remote_dir].

Lemma upload_images_no_files :
  files = [] →
  upload_images w (init_state r) =
  (Ok tt,
   {| trace := ensured ++ [EStdout (line "No image files found to upload."); EClose];
      remote := after_mkdir w remote_dir r; session := Closed |}).
Proof.
  intros Hfiles. unfold credentials_present in Hcred.
  unfold upload_images, bind at 1. rewrite (load_env_run w config _ Hload).
unfold bind at 1, get_port. rewrite Hport. cbv zeta.
  rewrite Hcred, Hlocal. fold host user password files. rewrite Hfiles.
  set (mkdir := try_except (sftp_mkdir w remote_dir) pass_IOError).
  exec. rewrite Hconnect. exec. rewrite Hsftp.
  subst mkdir. rewrite mkdir_swallowed by exact Hmkdir.
  unfold advance. exec. reflexivity.
Qed.

Lemma upload_images_batch_ok :
  files ≠ [] →
  uploads_ok w remote_dir files →
  upload_images w (init_state r) =
  (Ok tt,
   {| trace := ensured
               ++ [EStdout (line ("Uploading " +:+ pretty total +:+ " images..."))]
               ++ loop_trace remote_dir total 0 files
               ++ [EStdout (line ("Done! Uploaded " +:+ pretty total +:+ " images."));
                   ESftpClose; EClose];
      remote := uploaded remote_dir files (after_mkdir w remote_dir r);
      session := Closed |}).
Proof.
  intros Hfiles Hok. unfold credentials_present in Hcred.
  unfold upload_images, bind at 1. rewrite (load_env_run w config _ Hload).
unfold bind at 1, get_port. rewrite Hport. cbv zeta.
  rewrite Hcred, Hlocal. fold host user password files total.
  assert (Hne : nonempty files = true).
  { revert Hfiles. generalize files. by intros [| f0 rest]. }
  rewrite Hne.
  set (mkdir := try_except (sftp_mkdir w remote_dir) pass_IOError).
  set (loop := upload_loop w remote_dir total 0 files).
  exec. rewrite Hconnect. exec. rewrite Hsftp.
  subst mkdir. rewrite mkdir_swallowed by exact Hmkdir.
  unfold advance. exec.
  subst loop. rewrite upload_loop_ok by exact Hok.
  unfold advance. exec.
  subst ensured. cbn [app]. rewrite <- !app_assoc. reflexivity.
Qed.

End Images.

(** ** Progress lines *)

Lemma progress_line_is_report (k n : nat) :
  starts_with "Uploaded " (line (progress_line k n)) = true.
Proof.
  unfold line, progress_line. reflexivity.
Qed.

Lemma loop_condition_due (n i : nat) :
  ((i + 1) mod 10 =? 0)%nat || (i + 1 =? n)%nat = bool_decide (due n (i + 1)).
Proof.
  unfold due. destruct (Nat.eqb_spec ((i + 1) mod 10) 0), (Nat.eqb_spec (i + 1) n);
    cbn [orb]; symmetry;
    (apply bool_decide_eq_true_2 || apply bool_decide_eq_false_2); tauto.
Qed.

(** The reports of a successful loop, whatever follows it. *)
Lemma progress_reports_loop (remote_path : string) (n : nat) (files : list node)
    (rest : list event) :
  ∀ i,
    progress_reports i (loop_trace remote_path n i files ++ rest) =
    (((λ k, (k, line (progress_line k n))) <$> filter (due n) (seq (i + 1) (length files)))
     ++ progress_reports (i + length files) rest)%list.
Proof.
  induction files as [| f files IH]; intros i.
  - cbn [loop_trace length seq app]. rewrite filter_nil, Nat.add_0_r. reflexivity.
  - cbn [loop_trace length seq app progress_reports]. rewrite loop_condition_due.
    replace (S (i + 1)) with (i + 1 + 1)%nat by lia.
    replace (S i) with (i + 1)%nat by lia.
    replace (i + S (length files))%nat with (i + 1 + length files)%nat by lia.
    destruct (decide (due n (i + 1))) as [Hdue | Hdue].
    + rewrite bool_decide_eq_true_2 by exact Hdue.
      rewrite filter_cons_True by exact Hdue.
      cbn [app progress_reports]. rewrite progress_line_is_report.
      rewrite IH. reflexivity.
    + rewrite bool_decide_eq_false_2 by exact Hdue.
      rewrite filter_cons_False by exact Hdue.
      cbn [app]. apply IH.
Qed.

Ltac div10 x :=
  pose proof (Nat.div_mod_eq x 10);
  pose proof (Nat.mod_upper_bound x 10 ltac:(lia)).

(** Below the last file, progress is due at the multiples of ten. *)
Lemma due_below (n m : nat) :
  (m < n)%nat →
  filter (due n) (seq 1 m) = (λ j, 10 * j)%nat <$> seq 1 (m / 10).
Proof.
  induction m as [| m IH]; intros Hm; [reflexivity |].
  rewrite seq_S, filter_app, IH by lia. cbn [Nat.add].
  destruct (decide (S m mod 10 = 0)%nat) as [H0 | H0].
  - assert (Hq : (S m / 10 = S (m / 10))%nat) by (div10 m; div10 (S m); lia).
    rewrite Hq, seq_S, fmap_app.
    rewrite filter_cons_True, filter_nil by (left; exact H0).
    f_equal. cbn [fmap list_fmap Nat.add]. f_equal. div10 m; div10 (S m); lia.
  - assert (Hq : (S m / 10 = m / 10)%nat) by (div10 m; div10 (S m); lia).
    rewrite Hq, filter_cons_False, filter_nil, app_nil_r; [reflexivity |].
    unfold due. lia.
Qed.

(** The loop's test picks the points the specification names. *)
Lemma due_is_cadence (n : nat) : filter (due n) (seq 1 n) = cadence n.
Proof.
  unfold cadence. destruct n as [| m]; [reflexivity |].
  rewrite seq_S, filter_app, due_below by lia. cbn [Nat.add].
  rewrite filter_cons_True, filter_nil by (by right).
  destruct (Nat.eqb_spec (S m mod 10) 0) as [H0 | H0].
  - assert (Hq : (S m / 10 = S (m / 10))%nat) by (div10 m; div10 (S m); lia).
    rewrite Hq, seq_S, fmap_app, app_nil_r. f_equal.
    cbn [fmap list_fmap Nat.add]. f_equal. div10 m; div10 (S m); lia.
  - assert (Hq : (S m / 10 = m / 10)%nat) by (div10 m; div10 (S m); lia).
    rewrite Hq. reflexivity.
Qed.

Example cadence_12 : cadence 12 = [10; 12]%nat.
Proof. reflexivity. Qed.

Example cadence_30 : cadence 30 = [10; 20; 30]%nat.
Proof. reflexivity. Qed.

Example cadence_7 : cadence 7 = [7]%nat.
Proof. reflexivity. Qed.

Lemma progress_reports_skip (before : list event) :
  puts before = [] →
  (∀ k, progress_reports k before = []) →
  ∀ k t, progress_reports k (before ++ t) = progress_reports k t.
Proof.
  induction before as [| e before IH]; intros Hputs Hnone k t; [reflexivity |].
  destruct e as [text | | | | | | | | | | | | |];
    cbn [app progress_reports puts omap] in *; try (apply IH; assumption).
  - destruct (starts_with "Uploaded " text).
    + specialize (Hnone 0%nat). discriminate Hnone.
    + apply IH; assumption.
  - discriminate Hputs.
Qed.

Lemma progress_reports_batch (remote_path : string) (files : list node)
    (before after : list event) :
  puts before = [] →
  (∀ k, progress_reports k before = []) →
  (∀ k, progress_reports k after = []) →
  progress_reports 0 (before ++ loop_trace remote_path (length files) 0 files ++ after)
  = (λ k, (k, line (progress_line k (length files)))) <$> cadence (length files).
Proof.
  intros Hputs Hbefore Hafter.
  rewrite progress_reports_skip, progress_reports_loop, Hafter, app_nil_r by assumption.
  change (0 + 1)%nat with 1%nat. by rewrite due_is_cadence.
Qed.

Lemma demo_channel_opens : channel_opens demo_world demo_config.
Proof. split; [exact demo_env_loads |]. split; [reflexivity |]. exists 22. repeat split. Qed.

(** C4. In a batch of [n >= 1] files that all upload, the lines that start
    with "Uploaded " are, in order, "Uploaded k/n" for k = 10, 20, ... and
    for k = n, each printed when exactly [k] uploads have been started: one
    line per such point and no such line anywhere else in the trace.  This
    holds for the directory branch of [scp_copy] and for
    [upload_images]. *)
Theorem progress_cadence (w : world) (config : gmap string string) (r : remote_fs) :
  channel_opens w config →
  (∀ local_path remote_path str name children,
     w_fs w local_path = Some (NDir str name children) →
     mkdir_tolerated w remote_path →
     let files := regular_files children in
     let n := length files in
     (1 ≤ n)%nat →
     uploads_ok w remote_path files →
     ∃ s, scp_copy w local_path remote_path (init_state r) = (Ok 0, s)
          ∧ progress_reports 0 (trace s)
            = (λ k, (k, line (progress_line k n))) <$> cadence n)
  ∧ (∀ dir,
     w_fs w (local_dir w) = Some dir →
     mkdir_tolerated w remote_dir →
     let files := image_files dir in
     let n := length files in
     (1 ≤ n)%nat →
     uploads_ok w remote_dir files →
     ∃ s, upload_images w (init_state r) = (Ok tt, s)
          ∧ progress_reports 0 (trace s)
            = (λ k, (k, line (progress_line k n))) <$> cadence n).
Proof.
  intros (Hload & Hcred & port & Hport & Hconnect & Hsftp). split.
  - intros local_path remote_path str name children Hlocal Hmkdir files n Hn Hok.
    assert (Hne : files ≠ []) by (intros E; subst n; rewrite E in Hn; simpl in Hn; lia).
    eexists. split.
    + exact (scp_copy_batch_ok w config port local_path remote_path r str name children
               Hload Hport Hcred Hconnect Hsftp Hlocal Hmkdir Hne Hok).
    + cbn [trace]. fold (regular_files children). fold files. fold n.
      apply progress_reports_batch; [reflexivity | intros k; reflexivity ..].
  - intros dir Hlocal Hmkdir files n Hn Hok.
    assert (Hne : files ≠ []) by (intros E; subst n; rewrite E in Hn; simpl in Hn; lia).
    eexists. split.
    + exact (upload_images_batch_ok w config port r dir
               Hload Hport Hcred Hconnect Hsftp Hlocal Hmkdir Hne Hok).
    + cbn [trace]. fold (image_files dir). fold files. fold n.
      rewrite app_assoc.
      apply progress_reports_batch; [reflexivity | intros k; reflexivity ..].
Qed.

Lemma progress_cadence_witness :
  (∃ s, scp_copy demo_world "up" "/srv/up" (init_state empty_remote) = (Ok 0, s)
        ∧ progress_reports 0 (trace s)
          = [(10%nat, line "Uploaded 10/12"); (12%nat, line "Uploaded 12/12")])
  ∧ (∃ s, upload_images demo_world (init_state empty_remote) = (Ok tt, s)
        ∧ progress_reports 0 (trace s) = [(3%nat, line "Uploaded 3/3")]).
Proof.
  pose proof (progress_cadence demo_world demo_config empty_remote demo_channel_opens)
    as [Hscp Himg].
  split.
  - refine (Hscp "up" "/srv/up" "up" "up" demo_children eq_refl _ _ _).
    + intros e He. discriminate He.
    + vm_compute. lia.
    + vm_compute. repeat constructor.
  - refine (Himg demo_images eq_refl _ _ _).
    + intros e He. discriminate He.
    + vm_compute. lia.
    + vm_compute. repeat constructor.
Defined.

(** ** Which files go where *)

Lemma puts_app (t1 t2 : list event) : puts (t1 ++ t2) = (puts t1 ++ puts t2)%list.
Proof. apply omap_app. Qed.

Lemma puts_loop_trace (remote_path : string) (n : nat) (files : list node) :
  ∀ i, puts (loop_trace remote_path n i files)
       = (λ f, (node_str f, destination remote_path f)) <$> files.
Proof.
  induction files as [| f files IH]; intros i; [reflexivity |].
  cbn [loop_trace]. rewrite fmap_cons, <- (IH (i + 1)%nat).
  destruct (((i + 1) mod 10 =? 0)%nat || (i + 1 =? n)%nat); reflexivity.
Qed.

Lemma stderr_of_app (t1 t2 : list event) :
  stderr_of (t1 ++ t2) = (stderr_of t1 ++ stderr_of t2)%list.
Proof. apply omap_app. Qed.

Lemma stderr_of_loop_trace (remote_path : string) (n : nat) (files : list node) :
  ∀ i, stderr_of (loop_trace remote_path n i files) = [].
Proof.
  induction files as [| f files IH]; intros i; [reflexivity |].
  cbn [loop_trace]. change (?e :: ?l ++ ?k)%list with ([e] ++ l ++ k)%list.
  rewrite !stderr_of_app, IH.
  destruct (((i + 1) mod 10 =? 0)%nat || (i + 1 =? n)%nat); reflexivity.
Qed.

(** A file that was written stays on the remote host while later files
    are written. *)
Lemma uploaded_keeps (remote_path : string) (files : list node) :
  ∀ (r : remote_fs) (path : string),
    is_Some (r_files r !! path) →
    is_Some (r_files (uploaded remote_path files r) !! path).
Proof.
  induction files as [| f files IH]; intros r path Hpath; [exact Hpath |].
  cbn [uploaded foldl]. apply IH. cbn [r_files].
  destruct (decide (destination remote_path f = path)) as [-> | Hne].
  - rewrite lookup_insert_eq. by eexists.
  - by rewrite lookup_insert_ne.
Qed.

Lemma uploaded_present (remote_path : string) (files : list node) :
  ∀ (r : remote_fs) (g : node),
    g ∈ files →
    is_Some (r_files (uploaded remote_path files r) !! destination remote_path g).
Proof.
  induction files as [| f files IH]; intros r g Hg.
  - by apply elem_of_nil in Hg.
  - cbn [uploaded foldl]. apply elem_of_cons in Hg as [-> | Hg].
    + apply uploaded_keeps. cbn [r_files]. rewrite lookup_insert_eq. by eexists.
    + by apply IH.
Qed.


(** C7. For a local directory, [scp_copy] over an open channel selects the
    direct children that are regular files: the uploads it starts are, in
    enumeration order, a prefix of that list, each child [f] going to
    [remote_path + "/" + f.name]; when no upload fails it is the whole list
    and the call returns 0.  Subdirectories, and whatever they hold, are
    not in the list. *)
Theorem directory_selection (w : world) (config : gmap string string) (r : remote_fs)
    (local_path remote_path str name : string) (children : list node) :
  channel_opens w config →
  w_fs w local_path = Some (NDir str name children) →
  mkdir_tolerated w remote_path →
  let selected := filter (λ f, is_file f = true) children in
  let expected := (λ f, (node_str f, remote_path +:+ "/" +:+ node_name f)) <$> selected in
  let outcome := scp_copy w local_path remote_path (init_state r) in
  puts (trace outcome.2) `prefix_of` expected
  ∧ (uploads_ok w remote_path selected →
     outcome.1 = Ok 0 ∧ puts (trace outcome.2) = expected).
Proof.
  intros (Hload & Hcred & port & Hport & Hconnect & Hsftp) Hlocal Hmkdir selected expected outcome.
  assert (Hall : uploads_ok w remote_path selected →
                 outcome.1 = Ok 0 ∧ puts (trace outcome.2) = expected).
  { intros Hok. subst outcome. destruct (decide (selected = [])) as [Hnil | Hne].
    - rewrite (scp_copy_no_files w config port local_path remote_path r str name children
                 Hload Hport Hcred Hconnect Hsftp Hlocal Hnil).
      subst expected. rewrite Hnil. split; reflexivity.
    - rewrite (scp_copy_batch_ok w config port local_path remote_path r str name children
                 Hload Hport Hcred Hconnect Hsftp Hlocal Hmkdir Hne Hok).
      split; [reflexivity |]. cbn [snd trace].
      rewrite !puts_app, puts_loop_trace. cbn [puts omap list_omap app].
      apply app_nil_r. }
  split; [| exact Hall].
  destruct (first_failure w remote_path selected)
    as [Hok | (before & f & after & e & Hsplit & Hok & Hf)].
  - destruct (Hall Hok) as [_ ->]. reflexivity.
  - subst outcome.
    rewrite (scp_copy_batch_fails w config port local_path remote_path r str name children
               Hload Hport Hcred Hconnect Hsftp Hlocal Hmkdir before f after e Hsplit Hok Hf).
    cbn [snd trace]. rewrite !puts_app, puts_loop_trace.
    subst expected. rewrite Hsplit, fmap_app, fmap_cons.
    exists ((λ f0, (node_str f0, remote_path +:+ "/" +:+ node_name f0)) <$> after).
    destruct (is_Exception e); cbn [puts omap list_omap app]; rewrite <- app_assoc; reflexivity.
Qed.

Lemma directory_selection_witness :
  let outcome := scp_copy demo_world "up" "/srv/up" (init_state empty_remote) in
  outcome.1 = Ok 0
  ∧ puts (trace outcome.2)
    = (λ n : nat, ("up/f" +:+ pretty n, "/srv/up/f" +:+ pretty n)) <$> seq 0 12.
Proof.
  refine (proj2 (directory_selection demo_world demo_config empty_remote
                   "up" "/srv/up" "up" "up" demo_children demo_channel_opens eq_refl _) _).
  - intros e He. discriminate He.
  - vm_compute. repeat constructor.
Defined.

(** ** Failure in the middle of a batch *)

(** C9. When, in a directory upload with [scp_copy], the files before [f]
    upload and the upload of [f] raises an exception [e] of class
    [Exception], the invocation ends with [sys.exit(1)]; the uploads
    started are those before [f] and [f] itself, none after; standard
    error holds the handler's line for [e], which is "Error: " followed by
    [str(e)] unless [e] is an SSH or authentication error; and the remote
    host is left with every file written before [f]. *)
Theorem batch_fails_fast (w : world) (config : gmap string string) (r : remote_fs)
    (local_path remote_path str name : string) (children : list node)
    (before : list node) (f : node) (after : list node) (e : exn)
    (script : string) (args : list string) :
  channel_opens w config →
  w_fs w local_path = Some (NDir str name children) →
  mkdir_tolerated w remote_path →
  regular_files children = (before ++ f :: after)%list →
  uploads_ok w remote_path before →
  put_error w f (destination remote_path f) = Some e →
  is_Exception e = true →
  ∃ s,
    run (scp_main w (script :: local_path :: remote_path :: args)) (init_state r)
    = (Exited 1, s)
    ∧ puts (trace s)
      = (λ g, (node_str g, destination remote_path g)) <$> (before ++ [f])%list
    ∧ stderr_of (trace s) = [line (handler_message e)]
    ∧ last (trace s) = Some EClose
    ∧ remote s = uploaded remote_path before (after_mkdir w remote_path r)
    ∧ ∀ g, g ∈ before → is_Some (r_files (remote s) !! destination remote_path g).
Proof.
  intros (Hload & Hcred & port & Hport & Hconnect & Hsftp) Hlocal Hmkdir Hsplit Hok Hf He.
  unfold run, scp_main, bind.
  rewrite (scp_copy_batch_fails w config port local_path remote_path r str name children
             Hload Hport Hcred Hconnect Hsftp Hlocal Hmkdir before f after e Hsplit Hok Hf).
  rewrite He. unfold sys_exit, raise. eexists. split; [reflexivity |].
  cbn [trace remote]. repeat split.
  - rewrite !puts_app, puts_loop_trace, fmap_app. reflexivity.
  - rewrite !stderr_of_app, stderr_of_loop_trace. reflexivity.
  - rewrite !app_assoc. apply last_snoc.
  - intros g Hg. by apply uploaded_present.
Qed.

Lemma batch_fails_fast_witness :
  ∃ s,
    run (scp_main dropping_world ["scp_run.py"; "up"; "/srv/up"])
        (init_state empty_remote)
    = (Exited 1, s)
    ∧ puts (trace s)
      = [("up/f0", "/srv/up/f0"); ("up/f1", "/srv/up/f1"); ("up/f2", "/srv/up/f2");
         ("up/f3", "/srv/up/f3")]
    ∧ stderr_of (trace s)
      = [line "Error: SSH connection failed - Server connection dropped"]
    ∧ last (trace s) = Some EClose.
Proof.
  destruct (batch_fails_fast dropping_world demo_config empty_remote
              "up" "/srv/up" "up" "up"
              demo_children (demo_files 0 3) (NFile "up/f3" "f3") (demo_files 4 8)
              (SSHException "Server connection dropped")
              "scp_run.py" [])
    as (s & Hrun & Hputs & Herr & Hlast & _).
  - split; [exact demo_env_loads |]. split; [reflexivity |]. exists 22. repeat split.
  - reflexivity.
  - intros e He. discriminate He.
  - vm_compute. reflexivity.
  - vm_compute. repeat constructor.
  - reflexivity.
  - reflexivity.
  - exists s. repeat split; assumption.
Defined.

(** ** Creating the remote directory *)





(** ** An empty batch *)

(** With no regular file in the directory, [scp_copy] returns 0 once the
    channel is open: it starts no upload and does not try to create the
    remote directory. *)
Lemma scp_copy_empty_directory (w : world) (config : gmap string string) (r : remote_fs)
    (local_path remote_path str name : string) (children : list node) :
  channel_opens w config →
  w_fs w local_path = Some (NDir str name children) →
  regular_files children = [] →
  ∃ s port,
    scp_copy w local_path remote_path (init_state r) = (Ok 0, s)
    ∧ network (trace s)
      = [EConnect (config !! "SSH_HOST") port (config !! "SSH_USER")
           (config !! "SSH_PASSWORD") 30; EOpenSftp; EClose]
    ∧ remote s = r.
Proof.
  intros (Hload & Hcred & port & Hport & Hconnect & Hsftp) Hlocal Hnil.
  eexists _, port. split.
  - exact (scp_copy_no_files w config port local_path remote_path r str name children
             Hload Hport Hcred Hconnect Hsftp Hlocal Hnil).
  - split; reflexivity.
Qed.

(** With no child of the directory that matches one of the three patterns,
    [upload_images] ends normally: it tries to create the remote directory
    and starts no upload. *)
Lemma upload_images_no_match (w : world) (config : gmap string string) (r : remote_fs)
    (dir : node) :
  channel_opens w config →
  w_fs w (local_dir w) = Some dir →
  mkdir_tolerated w remote_dir →
  image_files dir = [] →
  ∃ s port,
    upload_images w (init_state r) = (Ok tt, s)
    ∧ network (trace s)
      = [EConnect (config !! "SSH_HOST") port (config !! "SSH_USER")
           (config !! "SSH_PASSWORD") 30; EOpenSftp; EMkdir remote_dir; EClose].
Proof.
  intros (Hload & Hcred & port & Hport & Hconnect & Hsftp) Hlocal Hmkdir Hnil.
  eexists _, port. split.
  - exact (upload_images_no_files w config port r dir
             Hload Hport Hcred Hconnect Hsftp Hlocal Hmkdir Hnil).
  - reflexivity.
Qed.

(** C1 fails on [upload_images].  The products directory below holds no
    regular file, only a directory named [thumbs.png].  The glob takes it
    for an image: the script announces one image, starts an upload, which
    fails on the directory, and ends with [sys.exit(1)]. *)
Theorem upload_images_takes_directory :
  regular_files [NDir "/srv/server/uploads/products/thumbs.png" "thumbs.png" []] = []
  ∧ ∃ s,
      run (upload_images decoy_world) (init_state empty_remote) = (Exited 1, s)
      ∧ puts (trace s)
        = [("/srv/server/uploads/products/thumbs.png",
            "/root/PerfumesStore/server/uploads/products/thumbs.png")]
      ∧ EStdout (line "Uploading 1 images...") ∈ trace s
      ∧ stderr_of (trace s)
        = [line "Error: [Errno 21] Is a directory: '/srv/server/uploads/products/thumbs.png'"].
Proof.
  split; [reflexivity |]. eexists. split; [vm_compute; reflexivity |].
  cbn [trace]. repeat split. do 6 apply list_elem_of_further. apply list_elem_of_here.
Qed.

(** ** Releasing the session *)

Section Emits.

Variable P : event → Prop.

Lemma emits_ret {A} (a : A) : emits P (ret a).
Proof. intros s. exists []. by rewrite app_nil_r. Qed.

Lemma emits_raise {A} (e : exn) : emits P (@raise A e).
Proof. intros s. exists []. by rewrite app_nil_r. Qed.

Lemma emits_emit (e : event) : P e → emits P (emit e).
Proof. intros He s. exists [e]. split; [reflexivity | by constructor]. Qed.

Lemma emits_set_session (st : session_state) : emits P (set_session st).
Proof. intros s. exists []. by rewrite app_nil_r. Qed.

Lemma emits_get_session : emits P get_session.
Proof. intros s. exists []. by rewrite app_nil_r. Qed.

Lemma emits_get_remote : emits P get_remote.
Proof. intros s. exists []. by rewrite app_nil_r. Qed.

Lemma emits_set_remote (r : remote_fs) : emits P (set_remote r).
Proof. intros s. exists []. by rewrite app_nil_r. Qed.

Lemma emits_bind {A B} (m : M A) (k : A → M B) :
  emits P m → (∀ a, emits P (k a)) → emits P (bind m k).
Proof.
  intros Hm Hk s. unfold bind.
  destruct (Hm s) as (t1 & Ht1 & HP1). destruct (m s) as [[a | e] s1]; cbn [snd] in Ht1.
  - destruct (Hk a s1) as (t2 & Ht2 & HP2).
    exists (t1 ++ t2)%list. rewrite Ht2, Ht1, app_assoc. split; [reflexivity |].
    by apply Forall_app.
  - exists t1. by split.
Qed.

Lemma emits_try_except {A} (m : M A) (h : exn → option (M A)) :
  emits P m → (∀ e k, h e = Some k → emits P k) → emits P (try_except m h).
Proof.
  intros Hm Hh s. unfold try_except.
  destruct (Hm s) as (t1 & Ht1 & HP1). destruct (m s) as [[a | e] s1]; cbn [snd] in Ht1.
  - exists t1. by split.
  - destruct (h e) as [k |] eqn:Hk.
    + destruct (Hh e k Hk s1) as (t2 & Ht2 & HP2).
      exists (t1 ++ t2)%list. rewrite Ht2, Ht1, app_assoc. split; [reflexivity |].
      by apply Forall_app.
    + exists t1. by split.
Qed.

Lemma emits_fault (o : option exn) : emits P (fault o).
Proof. destruct o; [apply emits_raise | apply emits_ret]. Qed.

Hypothesis Hout : ∀ text, P (EStdout text).
Hypothesis Herr : ∀ text, P (EStderr text).

Lemma emits_handlers {A} (on_error : M A) (e : exn) (k : M A) :
  emits P on_error → handlers on_error e = Some k → emits P k.
Proof.
  intros Hon. unfold handlers.
  destruct (is_AuthenticationException e); [| destruct (is_SSHException e);
    [| destruct (is_Exception e); [| discriminate]]];
    intros [= <-]; (apply emits_bind; [apply emits_emit, Herr | intros _; exact Hon]).
Qed.

Lemma emits_pass_IOError (e : exn) (k : M unit) :
  pass_IOError e = Some k → emits P k.
Proof.
  unfold pass_IOError. destruct (is_IOError e); [| discriminate].
  intros [= <-]. apply emits_ret.
Qed.

Hypothesis Hmkdir : ∀ path, P (EMkdir path).
Hypothesis Hput : ∀ l r, P (EPut l r).

Lemma emits_sftp_mkdir (w : world) (path : string) : emits P (sftp_mkdir w path).
Proof.
  unfold sftp_mkdir.
  apply emits_bind; [apply emits_emit, Hmkdir | intros _].
  apply emits_bind; [apply emits_fault | intros _].
  apply emits_bind; [apply emits_get_remote | intros r].
  destruct (bool_decide _); [apply emits_raise | apply emits_set_remote].
Qed.

Lemma emits_sftp_put (w : world) (f : node) (remote_file : string) :
  emits P (sftp_put w f remote_file).
Proof.
  unfold sftp_put.
  apply emits_bind; [apply emits_emit, Hput | intros _].
  apply emits_bind; [destruct (is_file f); [apply emits_ret | apply emits_raise] | intros _].
  apply emits_bind; [apply emits_fault | intros _].
  apply emits_bind; [apply emits_get_remote | intros r].
  apply emits_set_remote.
Qed.

Lemma emits_upload_loop (w : world) (remote_path : string) (total : nat)
    (files : list node) :
  ∀ i, emits P (upload_loop w remote_path total i files).
Proof.
  induction files as [| f files IH]; intros i; [apply emits_ret |].
  cbn [upload_loop].
  apply emits_bind; [apply emits_sftp_put | intros _].
  apply emits_bind; [| intros _; apply IH].
  destruct (_ || _); [apply emits_emit, Hout | apply emits_ret].
Qed.

End Emits.

Lemma count_no_close (t : list event) :
  Forall not_close t → count_occ event_eq_dec t EClose = 0%nat.
Proof.
  induction 1 as [| e t He _ IH]; [reflexivity |].
  cbn [count_occ]. destruct (event_eq_dec e EClose) as [-> | _]; [by destruct He | exact IH].
Qed.

Lemma released_after (t : list event) :
  Forall not_close t → session_released (t ++ [EClose]).
Proof.
  intros Ht _. split; [| apply last_snoc].
  rewrite count_occ_app, count_no_close by exact Ht. reflexivity.
Qed.

Lemma released_without_client (t : list event) :
  ENewClient ∉ t → session_released t.
Proof. intros Hno Hin. by destruct Hno. Qed.

(** However the guarded block ends, [close] runs after it, once. *)
Lemma try_finally_close {A} (m : M A) (s : state) :
  emits not_close m →
  ∃ t, trace (try_finally m close s).2 = (trace s ++ t ++ [EClose])%list
       ∧ Forall not_close t.
Proof.
  intros Hm. destruct (Hm s) as (t & Ht & HP). exists t. split; [| exact HP].
  unfold try_finally. destruct (m s) as [res s1]. cbn [snd] in Ht.
  unfold close, bind, emit, get_session, set_session. cbn [trace snd].
  by rewrite Ht, app_assoc.
Qed.

(** [close] never raises; on a session that is not connected it changes
    nothing but the trace. *)
Lemma close_is_noop (s : state) :
  session s ≠ Connected →
  close s = (Ok tt, advance [EClose] (remote s) (session s) s).
Proof.
  intros Hs. unfold close, bind, emit, get_session, set_session, advance.
  cbn [trace remote session]. destruct (session s); [reflexivity | by destruct Hs | reflexivity].
Qed.

Ltac not_close_event := intros; unfold not_close; discriminate.

(** Shows that a block of a script never calls [close]. *)
Ltac no_close :=
  repeat first
    [ apply emits_ret | apply emits_raise | apply emits_fault
    | apply emits_set_session | apply emits_get_session
    | apply emits_upload_loop; not_close_event
    | apply emits_sftp_put; not_close_event
    | apply emits_sftp_mkdir; not_close_event
    | apply emits_emit; not_close_event
    | eapply emits_pass_IOError; eassumption
    | eapply emits_handlers; [not_close_event | | eassumption]
    | apply emits_bind; [| intros ?]
    | apply emits_try_except; [| intros ? ? ?]
    | match goal with
      | |- emits _ (if ?b then _ else _) => destruct b
      | |- emits _ (match ?x with inl _ => _ | inr _ => _ end) => destruct x
      end
    | progress unfold connect, open_sftp, sftp_close, exec_command, stdout_read,
        stderr_read, recv_exit_status, println, println_err, print, print_err, sys_exit ].

Lemma scp_copy_releases (w : world) (local_path remote_path : string) (r : remote_fs) :
  session_released (trace (scp_copy w local_path remote_path (init_state r)).2).
Proof.
  unfold scp_copy, bind at 1, load_env.
  destruct (w_env w) as [lines |];
    [| apply released_without_client; cbn; by intros [?|?%elem_of_nil]%elem_of_cons ].
  unfold ret. generalize (foldl load_line ∅ lines). intros config.
  unfold bind at 1, get_port.
  destruct (port_of config) as [port | e];
    [| apply released_without_client; cbn; by intros ?%elem_of_nil ].
  cbv zeta. destruct (py_all _); cbn [negb];
    [| apply released_without_client; cbn; by intros [?|?%elem_of_nil]%elem_of_cons ].
  destruct (w_fs w local_path) as [local |];
    [| apply released_without_client; cbn; by intros [?|?%elem_of_nil]%elem_of_cons ].
  match goal with |- context [try_finally ?m close] =>
    set (body := m); assert (Hbody : emits not_close body) by (subst body; no_close)
  end.
  set (guarded := try_finally body close).
  exec. subst guarded.
  destruct (try_finally_close body
              {| trace := [EStdout (line ("Connecting to " +:+ fmt (config !! "SSH_HOST")
                                          +:+ "...")); ENewClient; ESetPolicy];
                 remote := r; session := Unconnected |} Hbody) as (t & -> & Ht).
  cbn [trace]. rewrite app_assoc. apply released_after.
  apply Forall_app. split; [| exact Ht]. repeat constructor; not_close_event.
Qed.

Lemma ssh_run_releases (w : world) (command : string) (r : remote_fs) :
  session_released (trace (ssh_run w command (init_state r)).2).
Proof.
  unfold ssh_run, bind at 1, load_env.
  destruct (w_env w) as [lines |];
    [| apply released_without_client; cbn; by intros [?|?%elem_of_nil]%elem_of_cons ].
  unfold ret. generalize (foldl load_line ∅ lines). intros config.
  unfold bind at 1, get_port.
  destruct (port_of config) as [port | e];
    [| apply released_without_client; cbn; by intros ?%elem_of_nil ].
  cbv zeta. destruct (py_all _); cbn [negb];
    [| apply released_without_client; cbn; by intros [?|?%elem_of_nil]%elem_of_cons ].
  match goal with |- context [try_finally ?m close] =>
    set (body := m); assert (Hbody : emits not_close body) by (subst body; no_close)
  end.
  set (guarded := try_finally body close).
  exec. subst guarded.
  destruct (try_finally_close body
              {| trace := [ENewClient; ESetPolicy]; remote := r; session := Unconnected |}
              Hbody) as (t & -> & Ht).
  cbn [trace]. rewrite app_assoc. apply released_after.
  apply Forall_app. split; [| exact Ht]. repeat constructor; not_close_event.
Qed.

Lemma upload_images_releases (w : world) (r : remote_fs) :
  session_released (trace (upload_images w (init_state r)).2).
Proof.
  unfold upload_images, bind at 1, load_env.
  destruct (w_env w) as [lines |];
    [| apply released_without_client; cbn; by intros [?|?%elem_of_nil]%elem_of_cons ].
  unfold ret. generalize (foldl load_line ∅ lines). intros config.
  unfold bind at 1, get_port.
  destruct (port_of config) as [port | e];
    [| apply released_without_client; cbn; by intros ?%elem_of_nil ].
  cbv zeta. destruct (py_all _); cbn [negb];
    [| apply released_without_client; cbn; by intros [?|?%elem_of_nil]%elem_of_cons ].
  destruct (w_fs w (local_dir w)) as [dir |];
    [| apply released_without_client; cbn; by intros [?|?%elem_of_nil]%elem_of_cons ].
  match goal with |- context [try_finally ?m close] =>
    set (body := m); assert (Hbody : emits not_close body) by (subst body; no_close)
  end.
  set (guarded := try_finally body close).
  exec. subst guarded.
  destruct (try_finally_close body
              {| trace := [EStdout (line ("Connecting to " +:+ fmt (config !! "SSH_HOST")
                                          +:+ "...")); ENewClient; ESetPolicy];
                 remote := r; session := Unconnected |} Hbody) as (t & -> & Ht).
  cbn [trace]. rewrite app_assoc. apply released_after.
  apply Forall_app. split; [| exact Ht]. repeat constructor; not_close_event.
Qed.

Lemma run_state {A} (m : M A) (k : A → M unit) (s : state) :
  (∀ a s', (k a s').2 = s') →
  (run (bind m k) s).2 = (m s).2.
Proof.
  intros Hk. unfold run, bind. destruct (m s) as [[a | e] s1]; cbn [snd].
  - specialize (Hk a s1). destruct (k a s1) as [[[] | e] s2]; cbn [snd] in *;
      [exact Hk | by destruct e].
  - by destruct e.
Qed.

(** A run that only prints the usage creates no client. *)
Ltac usage_trace :=
  apply released_without_client; cbn;
  intros H; repeat (apply elem_of_cons in H as [H | H]; [discriminate H |]);
  by apply elem_of_nil in H.

(** C3. Whatever the environment does (every library call may raise any
    exception, those outside [Exception] included) and whatever the
    arguments, the trace of an invocation of each of the three scripts
    that created a client holds exactly one [close], as its last event.
    And [close] itself never raises; on a session that is closed or was
    never connected it changes neither the session nor the remote host. *)
Theorem session_closed_once (w : world) (r : remote_fs) :
  (∀ argv, session_released (trace (run (scp_main w argv) (init_state r)).2))
  ∧ (∀ argv, session_released (trace (run (ssh_main w argv) (init_state r)).2))
  ∧ session_released (trace (run (upload_images w) (init_state r)).2)
  ∧ (∀ s, session s = Closed ∨ session s = Unconnected →
          close s = (Ok tt, advance [EClose] (remote s) (session s) s)).
Proof.
  split; [| split; [| split]].
  - intros argv. destruct argv as [| script [| local_path [| remote_path args]]];
      [usage_trace | usage_trace | usage_trace |].
    unfold scp_main. rewrite run_state by reflexivity. apply scp_copy_releases.
  - intros argv. destruct argv as [| script [| word words]];
      [usage_trace | usage_trace |].
    unfold ssh_main. rewrite run_state by reflexivity. apply ssh_run_releases.
  - replace (run (upload_images w) (init_state r)).2
      with (upload_images w (init_state r)).2; [apply upload_images_releases |].
    unfold run. destruct (upload_images w (init_state r)) as [[[] | e] s];
      [reflexivity | by destruct e].
  - intros s Hs. apply close_is_noop. destruct Hs as [-> | ->]; discriminate.
Qed.

Lemma session_closed_once_witness :
  let t := trace (run (scp_main dropping_world ["scp_run.py"; "up"; "/srv/up"])
                      (init_state empty_remote)).2 in
  ENewClient ∈ t ∧ count_occ event_eq_dec t EClose = 1%nat ∧ last t = Some EClose.
Proof.
  intros t.
  assert (Hnew : ENewClient ∈ t).
  { subst t. vm_compute. apply list_elem_of_further, list_elem_of_here. }
  split; [exact Hnew |].
  exact (proj1 (session_closed_once dropping_world empty_remote)
           ["scp_run.py"; "up"; "/srv/up"] Hnew).
Defined.

(** When the server rejects the password, [close] runs on a client that
    never connected, and the invocation still ends with the handler's
    [sys.exit(1)]. *)
Example close_after_failed_connect :
  run (ssh_main auth_failure_world ["ssh_run.py"; "ls"]) (init_state empty_remote)
  = (Exited 1,
     {| trace := [ENewClient; ESetPolicy; EConnect (Some "h") 22 (Some "u") (Some "p") 30;
                  EStderr (line "Error: Authentication failed"); EClose];
        remote := empty_remote; session := Unconnected |}).
Proof. reflexivity. Qed.

(** * Further properties of the scripts *)

(** ** Strings *)

Lemma append_cons (x : ascii) (a b : string) : String x a +:+ b = String x (a +:+ b).
Proof. reflexivity. Qed.

Lemma append_assoc (a b c : string) : (a +:+ b) +:+ c = a +:+ b +:+ c.
Proof.
  induction a as [| x a IH]; [reflexivity |]. rewrite !append_cons. f_equal. exact IH.
Qed.

Lemma append_nil_r (a : string) : a +:+ "" = a.
Proof.
  induction a as [| x a IH]; [reflexivity |]. rewrite append_cons. f_equal. exact IH.
Qed.

Lemma rev_app_spec (a b : string) : String.rev_app a b = String.rev a +:+ b.
Proof.
  unfold String.rev. revert b. induction a as [| x a IH]; intros b; [reflexivity |].
  cbn [String.rev_app]. rewrite IH, (IH (String x "")), append_assoc. reflexivity.
Qed.

Lemma rev_cons (x : ascii) (a : string) :
  String.rev (String x a) = String.rev a +:+ String x "".
Proof. unfold String.rev at 1. cbn [String.rev_app]. apply rev_app_spec. Qed.

Lemma rev_append (a b : string) : String.rev (a +:+ b) = String.rev b +:+ String.rev a.
Proof.
  induction a as [| x a IH]; [symmetry; apply append_nil_r |].
  by rewrite append_cons, !rev_cons, IH, append_assoc.
Qed.

Lemma rev_involutive (a : string) : String.rev (String.rev a) = a.
Proof.
  induction a as [| x a IH]; [reflexivity |].
  by rewrite rev_cons, rev_append, IH.
Qed.

Lemma blank_app (a b : string) : blank (a +:+ b) = blank a && blank b.
Proof.
  induction a as [| x a IH]; [reflexivity |].
  rewrite append_cons. cbn [blank]. by rewrite IH, andb_assoc.
Qed.

Lemma blank_rev (a : string) : blank (String.rev a) = blank a.
Proof.
  induction a as [| x a IH]; [reflexivity |].
  rewrite rev_cons, blank_app, IH. cbn [blank]. rewrite andb_true_r. apply andb_comm.
Qed.

Lemma lstrip_blank (ws : string) : blank ws = true → lstrip ws = "".
Proof.
  induction ws as [| x ws IH]; [reflexivity |]. cbn [blank lstrip].
  intros [Hx Hws]%andb_true_iff. rewrite Hx. by apply IH.
Qed.

Lemma lstrip_app (a b : string) :
  lstrip (a +:+ b) = if blank a then lstrip b else lstrip a +:+ b.
Proof.
  induction a as [| x a IH]; [reflexivity |].
  rewrite append_cons. cbn [blank lstrip].
  destruct (is_space x); [exact IH | reflexivity].
Qed.

Lemma lstrip_clean (a : string) : starts_clean a = true → lstrip a = a.
Proof.
  destruct a as [| x a]; [reflexivity |]. cbn [starts_clean lstrip].
  by intros ->%negb_true_iff.
Qed.

Lemma strip_pad (ws1 a ws2 : string) :
  blank ws1 = true → blank ws2 = true → strip (ws1 +:+ a +:+ ws2) = strip a.
Proof.
  intros H1 H2. unfold strip. rewrite lstrip_app, H1, lstrip_app.
  destruct (blank a) eqn:Ha.
  - by rewrite (lstrip_blank ws2), (lstrip_blank a).
  - rewrite rev_append, lstrip_app, blank_rev, H2. reflexivity.
Qed.

Lemma strip_trimmed (a : string) : trimmed a = true → strip a = a.
Proof.
  intros [H1 H2]%andb_true_iff. unfold strip.
  by rewrite (lstrip_clean a), (lstrip_clean (String.rev a)), rev_involutive.
Qed.

Lemma strip_blank (ws : string) : blank ws = true → strip ws = "".
Proof. intros H. unfold strip. rewrite (lstrip_blank ws H). reflexivity. Qed.

Lemma starts_clean_app (a b : string) : a ≠ "" → starts_clean (a +:+ b) = starts_clean a.
Proof. by destruct a. Qed.

Lemma rev_nonempty (a : string) : a ≠ "" → String.rev a ≠ "".
Proof.
  destruct a as [| x a]; [done |]. intros _. rewrite rev_cons.
  by destruct (String.rev a).
Qed.

Lemma str_in_app (c : ascii) (a b : string) : str_in c (a +:+ b) = str_in c a || str_in c b.
Proof.
  induction a as [| x a IH]; [reflexivity |].
  rewrite append_cons. cbn [str_in]. by rewrite IH, orb_assoc.
Qed.

Lemma str_in_rev (c : ascii) (a : string) : str_in c (String.rev a) = str_in c a.
Proof.
  induction a as [| x a IH]; [reflexivity |].
  rewrite rev_cons, str_in_app, IH. cbn [str_in]. rewrite orb_false_r. apply orb_comm.
Qed.

Lemma str_in_lstrip (c : ascii) (a : string) :
  str_in c a = false → str_in c (lstrip a) = false.
Proof.
  induction a as [| x a IH]; [done |]. cbn [str_in lstrip].
  destruct (is_space x); [| done]. intros [_ H]%orb_false_iff. by apply IH.
Qed.

Lemma str_in_strip (c : ascii) (a : string) :
  str_in c a = false → str_in c (strip a) = false.
Proof.
  intros H. unfold strip. rewrite str_in_rev. apply str_in_lstrip.
  rewrite str_in_rev. by apply str_in_lstrip.
Qed.

Lemma str_in_blank (ws : string) : blank ws = true → str_in "=" ws = false.
Proof.
  induction ws as [| x ws IH]; [done |]. cbn [blank str_in].
  intros [Hx Hws]%andb_true_iff. rewrite (IH Hws), orb_false_r.
  destruct (Ascii.eqb_spec x "="); [subst x; discriminate Hx | reflexivity].
Qed.

Lemma split1_app (c : ascii) (a b : string) :
  str_in c a = false → split1 c (a +:+ String c b) = (a, b).
Proof.
  induction a as [| x a IH].
  - intros _. cbn [String.append split1]. change ("" +:+ String c b) with (String c b).
    cbn [split1]. by rewrite Ascii.eqb_refl.
  - rewrite append_cons. cbn [str_in split1].
    intros [Hx Ha]%orb_false_iff. rewrite Hx, (IH Ha). reflexivity.
Qed.

(** What is left of a line that ends in a character other than whitespace
    still ends in it. *)
Lemma lstrip_keeps_last (a : string) (c : ascii) :
  is_space c = false → ∃ a', lstrip (a +:+ String c "") = a' +:+ String c "".
Proof.
  intros Hc. induction a as [| x a IH].
  - change ("" +:+ String c "") with (String c ""). cbn [lstrip]. rewrite Hc. by exists "".
  - rewrite append_cons. cbn [lstrip].
    destruct (is_space x); [exact IH | by exists (String x a)].
Qed.

Lemma rstrip_app (a b : string) :
  rstrip (a +:+ b) = if blank b then rstrip a else a +:+ rstrip b.
Proof.
  unfold rstrip. rewrite rev_append, lstrip_app, blank_rev.
  destruct (blank b); [reflexivity |]. by rewrite rev_append, rev_involutive.
Qed.

Lemma rstrip_blank (ws : string) : blank ws = true → rstrip ws = "".
Proof.
  intros H. unfold rstrip. rewrite lstrip_blank; [reflexivity |]. by rewrite blank_rev.
Qed.

Lemma rstrip_cons (c : ascii) (a : string) :
  is_space c = false → rstrip (String c a) = String c (rstrip a).
Proof.
  intros Hc. change (String c a) with (String c "" +:+ a). rewrite rstrip_app.
  destruct (blank a) eqn:Ha.
  - rewrite (rstrip_blank a Ha). unfold rstrip.
    change (String.rev (String c "")) with (String c ""). cbn [lstrip]. by rewrite Hc.
  - reflexivity.
Qed.

Lemma rstrip_clean (a : string) : starts_clean (String.rev a) = true → rstrip a = a.
Proof. intros H. unfold rstrip. by rewrite lstrip_clean, rev_involutive. Qed.

Lemma strip_rstrip (a : string) : strip a = rstrip (lstrip a).
Proof. reflexivity. Qed.

Lemma clean_not_blank (a : string) : a ≠ "" → starts_clean a = true → blank a = false.
Proof.
  destruct a as [| c a]; [done |]. intros _. cbn [starts_clean blank].
  by intros ->%negb_true_iff.
Qed.

Lemma load_line_skips (config : gmap string string) (text : string) :
  skipped text = true → load_line config text = config.
Proof.
  unfold skipped, load_line. intros [[H | H]%orb_true_iff | H]%orb_true_iff.
  - by rewrite strip_blank.
  - rewrite strip_rstrip. destruct (lstrip text) as [| c rest]; [discriminate H |].
    cbn [starts_with] in H. apply andb_true_iff in H as [Hc _].
    apply Ascii.eqb_eq in Hc. subst c.
    rewrite rstrip_cons by reflexivity. cbn [starts_with]. rewrite Ascii.eqb_refl.
    cbn [andb negb]. by rewrite andb_false_r.
  - apply negb_true_iff in H. rewrite (str_in_strip _ _ H). by rewrite andb_false_r.
Qed.

Lemma assignment_split (ws1 key ws2 ws3 value ws4 : string) :
  assignment ws1 key ws2 ws3 value ws4
  = ws1 +:+ ((key +:+ ws2) +:+ String "=" (ws3 +:+ value)) +:+ ws4.
Proof.
  unfold assignment.
  by rewrite !append_assoc, (append_cons "=" (ws3 +:+ value) ws4), append_assoc.
Qed.

Lemma load_line_assignment (config : gmap string string)
    (ws1 key ws2 ws3 value ws4 : string) :
  blank ws1 = true → blank ws2 = true → blank ws3 = true → blank ws4 = true →
  key_ok key → trimmed value = true →
  load_line config (assignment ws1 key ws2 ws3 value ws4) = <[key := value]> config.
Proof.
  intros H1 H2 H3 H4 (Hne & Hkey & Heq & Hhash) Hvalue.
  apply andb_true_iff in Hkey as [Hk1 Hk2]. apply andb_true_iff in Hvalue as [Hv1 Hv2].
  unfold load_line. rewrite assignment_split, strip_pad by assumption.
  rewrite strip_rstrip, lstrip_clean
    by (rewrite append_assoc, starts_clean_app by exact Hne; exact Hk1).
  rewrite rstrip_app. change (blank (String "=" (ws3 +:+ value))) with false.
  cbv iota. rewrite rstrip_cons by reflexivity.
  assert (Hin : str_in "=" (key +:+ ws2) = false)
    by (by rewrite str_in_app, Heq, str_in_blank).
  assert (Hvalue : strip (rstrip (ws3 +:+ value)) = value).
  { destruct (decide (value = "")) as [-> | Hv].
    - rewrite rstrip_blank by (by rewrite blank_app, H3). reflexivity.
    - rewrite rstrip_app, (clean_not_blank value Hv Hv1), (rstrip_clean value Hv2).
      rewrite <- (append_nil_r value) at 1. rewrite strip_pad by done.
      apply strip_trimmed. unfold trimmed. by rewrite Hv1, Hv2. }
  assert (Hk : strip (key +:+ ws2) = key).
  { change (key +:+ ws2) with ("" +:+ key +:+ ws2). rewrite strip_pad by done.
    apply strip_trimmed. unfold trimmed. by rewrite Hk1, Hk2. }
  rewrite (split1_app "=" _ _ Hin), Hk, Hvalue.
  replace (nonempty_str _ && _ && _) with true; [reflexivity |].
  symmetry. rewrite str_in_app. cbn [str_in]. rewrite Ascii.eqb_refl.
  cbn [orb]. rewrite orb_true_r, andb_true_r.
  destruct key as [| c key]; [done |]. rewrite !append_cons.
  cbn [starts_with] in Hhash |- *. rewrite andb_true_r in Hhash |- *.
  rewrite Hhash. reflexivity.
Qed.

(** X1. [load_env] reads a file as if its blank lines, its comment lines
    and its lines without ['='] were not there, wherever they stand. *)
Theorem skipped_lines_ignored (config : gmap string string) (lines : list string) :
  foldl load_line config lines
  = foldl load_line config (filter (λ text, skipped text = false) lines).
Proof.
  revert config. induction lines as [| text lines IH]; intros config; [reflexivity |].
  destruct (skipped text) eqn:Hskip.
  - rewrite filter_cons_False by (by rewrite Hskip).
    cbn [foldl]. rewrite (load_line_skips _ _ Hskip). apply IH.
  - rewrite filter_cons_True by exact Hskip. cbn [foldl]. apply IH.
Qed.

(** X2. A line [KEY=VALUE] sets [KEY] to [VALUE] and leaves the other keys
    as the lines before it made them: whitespace around the key, around
    the value and at the end of the line is dropped, the value may hold
    ['='] and inner spaces and may be empty, and a value set by an earlier
    line is replaced.  Skipped lines after it change nothing. *)
Theorem assignment_line_sets (config : gmap string string) (before after : list string)
    (ws1 key ws2 ws3 value ws4 : string) :
  blank ws1 = true → blank ws2 = true → blank ws3 = true → blank ws4 = true →
  key_ok key → trimmed value = true →
  Forall (λ text, skipped text = true) after →
  foldl load_line config (before ++ assignment ws1 key ws2 ws3 value ws4 :: after)
  = <[key := value]> (foldl load_line config before).
Proof.
  intros H1 H2 H3 H4 Hkey Hvalue Hafter.
  rewrite foldl_app. cbn [foldl]. rewrite load_line_assignment by assumption.
  generalize (<[key := value]> (foldl load_line config before)). intros config'.
  induction Hafter as [| text after Hskip _ IH]; [reflexivity |].
  cbn [foldl]. by rewrite load_line_skips.
Qed.

Lemma assignment_line_sets_witness :
  foldl load_line (<["K" := "old"]> ∅)
    ([line "# settings"]
     ++ assignment " " "K" " " "  " "a=b c" nl :: [line ""; line "no assignment"])
  = <["K" := "a=b c"]> (foldl load_line (<["K" := "old"]> ∅) [line "# settings"]).
Proof.
  apply assignment_line_sets; try reflexivity.
  - repeat split; [discriminate | ..]; reflexivity.
  - repeat constructor.
Defined.

(** ** Before the connection *)

(** X3. Without a [.env] file each of the three scripts reports where it
    looked for it and exits with status 1; no client is created. *)
Theorem env_missing_exits (w : world) :
  w_env w = None →
  (∀ local_path remote_path,
     refuses ("Error: .env file not found at " +:+ w_env_path w)
       (scp_copy w local_path remote_path))
  ∧ (∀ command,
       refuses ("Error: .env file not found at " +:+ w_env_path w) (ssh_run w command))
  ∧ refuses ("Error: .env file not found at " +:+ w_env_path w) (upload_images w).
Proof.
  intros Henv. unfold refuses, scp_copy, ssh_run, upload_images, load_env.
  rewrite Henv. split; [| split]; intros; reflexivity.
Qed.

Lemma env_missing_exits_witness :
  refuses "Error: .env file not found at /srv/remote/.env"
    (upload_images (without_env demo_world)).
Proof. exact (proj2 (proj2 (env_missing_exits (without_env demo_world) eq_refl))). Defined.

(** X4. Called with fewer than two arguments, scp_run.py prints its four
    usage lines on standard error and exits with status 1, whatever the
    environment: it reads no [.env] file and creates no client. *)
Theorem scp_main_usage (w : world) (argv : list string) (r : remote_fs) :
  (length argv < 3)%nat →
  run (scp_main w argv) (init_state r)
  = (Exited 1,
     {| trace := EStderr <$> (line <$> scp_usage); remote := r; session := Unconnected |}).
Proof.
  intros Hlen. destruct argv as [| script [| local_path [| remote_path args]]];
    [reflexivity | reflexivity | reflexivity | cbn [length] in Hlen; lia].
Qed.

Lemma scp_main_usage_witness :
  run (scp_main (without_env demo_world) ["scp_run.py"; "up"]) (init_state empty_remote)
  = (Exited 1,
     {| trace := EStderr <$> (line <$> scp_usage); remote := empty_remote;
        session := Unconnected |}).
Proof. apply scp_main_usage. cbn [length]. lia. Defined.

(** X5. Called without a command, ssh_run.py prints its usage line on
    standard error and exits with status 1, whatever the environment. *)
Theorem ssh_main_usage (w : world) (argv : list string) (r : remote_fs) :
  (length argv < 2)%nat →
  run (ssh_main w argv) (init_state r)
  = (Exited 1,
     {| trace := [EStderr (line "Usage: python ssh_run.py <command>")]; remote := r;
        session := Unconnected |}).
Proof.
  intros Hlen. destruct argv as [| script [| word words]];
    [reflexivity | reflexivity | cbn [length] in Hlen; lia].
Qed.

Lemma ssh_main_usage_witness :
  run (ssh_main (without_env demo_world) ["ssh_run.py"]) (init_state empty_remote)
  = (Exited 1,
     {| trace := [EStderr (line "Usage: python ssh_run.py <command>")];
        remote := empty_remote; session := Unconnected |}).
Proof. apply ssh_main_usage. cbn [length]. lia. Defined.

Lemma concat_cons (sep x y : string) (l : list string) :
  String.concat sep (x :: y :: l) = x +:+ sep +:+ String.concat sep (y :: l).
Proof. reflexivity. Qed.

Lemma concat_words (before after : list string) (x y : string) :
  String.concat " " (before ++ (x +:+ " " +:+ y) :: after)
  = String.concat " " (before ++ x :: y :: after).
Proof.
  induction before as [| b before IH].
  - cbn [app]. destruct after as [| a after]; [reflexivity |].
    by rewrite !concat_cons, !append_assoc.
  - destruct before as [| b' before].
    + cbn [app] in *. by rewrite !concat_cons, IH.
    + cbn [app] in *. by rewrite !concat_cons, IH.
Qed.

(** X6. ssh_run.py joins its arguments with single spaces, so the word
    boundaries of the command line are lost: an argument that holds a
    space is sent as two words. *)
Theorem ssh_main_joins_arguments (w : world) (script : string)
    (before after : list string) (x y : string) :
  ssh_main w (script :: before ++ (x +:+ " " +:+ y) :: after)
  = ssh_main w (script :: before ++ x :: y :: after).
Proof.
  assert (Hne : ∀ z l, ∃ a l', (before ++ z :: l)%list = a :: l')
    by (intros z l; destruct before; cbn [app]; eauto).
  unfold ssh_main.
  destruct (Hne (x +:+ " " +:+ y) after) as (a & l & Ha).
  destruct (Hne x (y :: after)) as (a' & l' & Ha').
  rewrite Ha, Ha', <- Ha, <- Ha'. by rewrite concat_words.
Qed.

Lemma demo_configured : configured demo_world demo_config 22.
Proof. split; [exact demo_env_loads | split; reflexivity]. Qed.

(** X7. When the local path does not exist, [scp_copy] says so and exits
    with status 1 before a client is created. *)
Theorem scp_copy_local_path_missing (w : world) (config : gmap string string) (port : Z)
    (local_path remote_path : string) :
  configured w config port →
  w_fs w local_path = None →
  refuses ("Error: Local path not found: " +:+ local_path)
    (scp_copy w local_path remote_path).
Proof.
  intros (Hload & Hcred & Hport) Hlocal r. unfold credentials_present in Hcred.
  unfold scp_copy, bind at 1. rewrite (load_env_run w config _ Hload).
  unfold bind at 1, get_port. rewrite Hport. cbv zeta. rewrite Hcred, Hlocal.
  reflexivity.
Qed.

Lemma scp_copy_local_path_missing_witness :
  refuses "Error: Local path not found: nowhere" (scp_copy demo_world "nowhere" "/srv/up").
Proof.
  exact (scp_copy_local_path_missing demo_world demo_config 22 "nowhere" "/srv/up"
           demo_configured eq_refl).
Defined.

(** X8. When the products directory does not exist, [upload_images] says
    so, naming the directory it derived from its own location, and exits
    with status 1 before a client is created. *)
Theorem upload_images_local_dir_missing (w : world) (config : gmap string string)
    (port : Z) :
  configured w config port →
  w_fs w (w_project_root w +:+ "/server/uploads/products") = None →
  refuses ("Error: Local directory not found: " +:+ w_project_root w
           +:+ "/server/uploads/products")
    (upload_images w).
Proof.
  intros (Hload & Hcred & Hport) Hlocal r. unfold credentials_present in Hcred.
  unfold upload_images, bind at 1. rewrite (load_env_run w config _ Hload).
  unfold bind at 1, get_port. rewrite Hport. cbv zeta. unfold local_dir.
  rewrite Hcred, Hlocal. reflexivity.
Qed.

Lemma upload_images_local_dir_missing_witness :
  refuses "Error: Local directory not found: /srv/server/uploads/products"
    (upload_images (with_fs one_file demo_world)).
Proof.
  exact (upload_images_local_dir_missing (with_fs one_file demo_world) demo_config 22
           demo_configured eq_refl).
Defined.

(** ** One file with [scp_copy] *)

(** Runs the checks that precede the connection. *)
Ltac preflight Hconf :=
  let Hload := fresh "Hload" in
  let Hcred := fresh "Hcred" in
  let Hport := fresh "Hport" in
  destruct Hconf as (Hload & Hcred & Hport); unfold credentials_present in Hcred;
  unfold bind at 1; rewrite (load_env_run _ _ _ Hload);
  unfold bind at 1, get_port; rewrite Hport; cbv zeta; rewrite Hcred.

(** X9. Given a regular file, [scp_copy] writes it to [remote_path] itself,
    not to a file of that name below [remote_path]; it does not try to
    create a directory, prints no progress line, and returns 0. *)
Theorem single_file_upload (w : world) (config : gmap string string) (port : Z)
    (local_path remote_path str name : string) (r : remote_fs) :
  configured w config port →
  w_fs w local_path = Some (NFile str name) →
  connect_error w config port = None →
  w_open_sftp w = None →
  w_put_fault w str remote_path = None →
  scp_copy w local_path remote_path (init_state r)
  = (Ok 0,
     {| trace := [EStdout (connecting config); ENewClient; ESetPolicy;
                  connect_event config port; EOpenSftp;
                  EStdout (line ("Uploading " +:+ name +:+ "..."));
                  EPut str remote_path;
                  EStdout (line ("Done! Uploaded " +:+ name));
                  ESftpClose; EClose];
        remote := {| r_dirs := r_dirs r; r_files := <[remote_path := str]> (r_files r) |};
        session := Closed |}).
Proof.
  intros Hconf Hlocal Hconnect Hsftp Hput. unfold connect_error in Hconnect.
  unfold scp_copy. preflight Hconf. rewrite Hlocal.
  exec. rewrite Hconnect. exec. rewrite Hsftp. exec.
  unfold sftp_put. exec. cbn [node_str]. rewrite Hput. reflexivity.
Qed.

Lemma single_file_upload_witness :
  scp_copy (with_fs one_file demo_world) "notes.txt" "/srv/up" (init_state prepared_remote)
  = (Ok 0,
     {| trace := [EStdout (connecting demo_config); ENewClient; ESetPolicy;
                  connect_event demo_config 22; EOpenSftp;
                  EStdout (line "Uploading notes.txt...");
                  EPut "notes.txt" "/srv/up";
                  EStdout (line "Done! Uploaded notes.txt");
                  ESftpClose; EClose];
        remote := {| r_dirs := r_dirs prepared_remote;
                     r_files := <["/srv/up" := "notes.txt"]> (r_files prepared_remote) |};
        session := Closed |}).
Proof.
  exact (single_file_upload (with_fs one_file demo_world) demo_config 22
           "notes.txt" "/srv/up" "notes.txt" "notes.txt" prepared_remote
           demo_configured eq_refl eq_refl eq_refl eq_refl).
Defined.

(** X10. When the upload of a single file fails with an exception of class
    [Exception], [scp_copy] prints the handler's line for it on standard
    error, closes the session and returns 1; it prints neither [Done!] nor
    anything else after the failure. *)
Theorem single_file_upload_fails (w : world) (config : gmap string string) (port : Z)
    (local_path remote_path str name : string) (r : remote_fs) (e : exn) :
  configured w config port →
  w_fs w local_path = Some (NFile str name) →
  connect_error w config port = None →
  w_open_sftp w = None →
  w_put_fault w str remote_path = Some e →
  is_Exception e = true →
  ∃ s,
    scp_copy w local_path remote_path (init_state r) = (Ok 1, s)
    ∧ trace s = [EStdout (connecting config); ENewClient; ESetPolicy;
                 connect_event config port; EOpenSftp;
                 EStdout (line ("Uploading " +:+ name +:+ "..."));
                 EPut str remote_path;
                 EStderr (line (handler_message e)); EClose]
    ∧ session s = Closed.
Proof.
  intros Hconf Hlocal Hconnect Hsftp Hput He. unfold connect_error in Hconnect.
  unfold scp_copy. preflight Hconf. rewrite Hlocal.
  exec. rewrite Hconnect. exec. rewrite Hsftp. exec.
  unfold sftp_put. exec. cbn [node_str]. rewrite Hput. exec.
  rewrite handlers_run by exact He. eexists. split; [reflexivity |]. split; reflexivity.
Qed.

Lemma single_file_upload_fails_witness :
  ∃ s,
    scp_copy
      (with_faults None None None (Some (OSError "[Errno 13] Permission denied")) None
         (with_fs one_file demo_world))
      "notes.txt" "/etc/notes" (init_state empty_remote) = (Ok 1, s)
    ∧ trace s = [EStdout (connecting demo_config); ENewClient; ESetPolicy;
                 connect_event demo_config 22; EOpenSftp;
                 EStdout (line "Uploading notes.txt...");
                 EPut "notes.txt" "/etc/notes";
                 EStderr (line "Error: [Errno 13] Permission denied"); EClose]
    ∧ session s = Closed.
Proof.
  exact (single_file_upload_fails
           (with_faults None None None (Some (OSError "[Errno 13] Permission denied")) None
              (with_fs one_file demo_world))
           demo_config 22 "notes.txt" "/etc/notes" "notes.txt" "notes.txt" empty_remote
           (OSError "[Errno 13] Permission denied")
           demo_configured eq_refl eq_refl eq_refl eq_refl eq_refl).
Defined.

(** ** Failures in the guarded block *)

(** X11. When [client.connect] fails with an exception of class
    [Exception], each script prints the line of the first matching handler
    ([Authentication failed], [SSH connection failed - ...], or the bare
    message) and closes the client, which never connected; [scp_copy]
    returns 1, [ssh_run] and [upload_images] call [sys.exit(1)].  No other
    call reaches the server. *)
Theorem connect_failure_reported (w : world) (config : gmap string string) (port : Z)
    (r : remote_fs) (e : exn) :
  configured w config port →
  connect_error w config port = Some e →
  is_Exception e = true →
  (∀ local_path remote_path local,
     w_fs w local_path = Some local →
     scp_copy w local_path remote_path (init_state r)
     = (Ok 1,
        {| trace := EStdout (connecting config) :: attempted config port
                    ++ [EStderr (line (handler_message e)); EClose];
           remote := r; session := Unconnected |}))
  ∧ (∀ command,
       ssh_run w command (init_state r)
       = (Raise (SystemExit 1),
          {| trace := attempted config port
                      ++ [EStderr (line (handler_message e)); EClose];
             remote := r; session := Unconnected |}))
  ∧ (∀ dir,
       w_fs w (local_dir w) = Some dir →
       upload_images w (init_state r)
       = (Raise (SystemExit 1),
          {| trace := EStdout (connecting config) :: attempted config port
                      ++ [EStderr (line (handler_message e)); EClose];
             remote := r; session := Unconnected |})).
Proof.
  intros Hconf Hconnect He. unfold connect_error in Hconnect.
  split; [| split].
  - intros local_path remote_path local Hlocal.
    unfold scp_copy. preflight Hconf. rewrite Hlocal.
    match goal with |- context [bind (open_sftp w) ?k] => set (rest := bind (open_sftp w) k) end.
    exec. rewrite Hconnect. exec. rewrite handlers_run by exact He. reflexivity.
  - intros command.
    unfold ssh_run. preflight Hconf.
    match goal with |- context [bind (exec_command w command) ?k] =>
      set (rest := bind (exec_command w command) k) end.
    exec. rewrite Hconnect. exec. rewrite handlers_run by exact He. reflexivity.
  - intros dir Hlocal.
    unfold upload_images. preflight Hconf. rewrite Hlocal.
    match goal with |- context [bind (open_sftp w) ?k] => set (rest := bind (open_sftp w) k) end.
    exec. rewrite Hconnect. exec. rewrite handlers_run by exact He. reflexivity.
Qed.

Lemma connect_failure_reported_witness :
  ssh_run (with_faults (Some (SSHException "Connection timed out")) None None None None
             demo_world)
    "ls" (init_state empty_remote)
  = (Raise (SystemExit 1),
     {| trace := attempted demo_config 22
                 ++ [EStderr (line "Error: SSH connection failed - Connection timed out");
                     EClose];
        remote := empty_remote; session := Unconnected |}).
Proof.
  exact (proj1 (proj2 (connect_failure_reported
           (with_faults (Some (SSHException "Connection timed out")) None None None None
              demo_world)
           demo_config 22 empty_remote (SSHException "Connection timed out")
           demo_configured eq_refl eq_refl)) "ls").
Defined.

(** ** Image upload with [upload_images] *)

Section ImagesFail.

Variables (w : world) (config : gmap string string) (port : Z).
Variables (r : remote_fs) (dir : node).

Let files := (glob "*.png" dir ++ glob "*.jpg" dir ++ glob "*.webp" dir)%list.
Let total := length files.

Hypothesis Hconf : configured w config port.
Hypothesis Hconnect : connect_error w config port = None.
Hypothesis Hsftp : w_open_sftp w = None.
Hypothesis Hlocal : w_fs w (local_dir w) = Some dir.
Hypothesis Hmkdir : ∀ e, w_mkdir_fault w remote_dir = Some e → is_IOError e = true.

Lemma upload_images_batch_fails (before : list node) (f : node) (after : list node)
    (e : exn) :
  files = (before ++ f :: after)%list →
  uploads_ok w remote_dir before →
  put_error w f (destination remote_dir f) = Some e →
  upload_images w (init_state r) =
  (Raise (if is_Exception e then SystemExit 1 else e),
   {| trace := [EStdout (connecting config); ENewClient; ESetPolicy;
                connect_event config port; EOpenSftp; EMkdir remote_dir;
                EStdout (line ("Uploading " +:+ pretty total +:+ " images..."))]
               ++ loop_trace remote_dir total 0 before
               ++ [EPut (node_str f) (destination remote_dir f)]
               ++ (if is_Exception e then [EStderr (line (handler_message e))] else [])
               ++ [EClose];
      remote := uploaded remote_dir before (after_mkdir w remote_dir r);
      session := Closed |}).
Proof.
  intros Hfiles Hok Hf. unfold connect_error in Hconnect.
  unfold upload_images. preflight Hconf. rewrite Hlocal. fold files total.
  assert (Hne : nonempty files = true) by (rewrite Hfiles; by destruct before).
  rewrite Hne.
  set (mkdir := try_except (sftp_mkdir w remote_dir) pass_IOError).
  set (loop := upload_loop w remote_dir total 0 files).
  exec. rewrite Hconnect. exec. rewrite Hsftp.
  subst mkdir. rewrite mkdir_swallowed by exact Hmkdir.
  unfold advance. exec.
  subst loop. rewrite Hfiles at 1.
  rewrite (upload_loop_fails w remote_dir total before f after e Hok Hf).
  unfold advance. destruct (is_Exception e) eqn:He.
  - rewrite handlers_run by exact He. exec.
    cbn [app]. rewrite <- !app_assoc. reflexivity.
  - rewrite handlers_none by exact He. exec.
    cbn [app]. rewrite <- !app_assoc. reflexivity.
Qed.

End ImagesFail.

(** X12. Over an open channel [upload_images] uploads the children of the
    products directory whose name ends in [.png], then those whose name
    ends in [.jpg], then those whose name ends in [.webp], each group in
    enumeration order and each child [f] to
    [/root/PerfumesStore/server/uploads/products/] followed by [f.name]:
    the uploads it starts are a prefix of that list, and the whole list
    when no upload fails. *)
Theorem image_upload_order (w : world) (config : gmap string string) (port : Z)
    (r : remote_fs) (dir : node) :
  configured w config port →
  connect_error w config port = None →
  w_open_sftp w = None →
  w_fs w (local_dir w) = Some dir →
  mkdir_tolerated w remote_dir →
  let expected :=
    image_upload <$> (glob "*.png" dir ++ glob "*.jpg" dir ++ glob "*.webp" dir)%list in
  let outcome := upload_images w (init_state r) in
  puts (trace outcome.2) `prefix_of` expected
  ∧ (uploads_ok w remote_dir (image_files dir) →
     outcome.1 = Ok tt ∧ puts (trace outcome.2) = expected).
Proof.
  intros Hconf Hconnect Hsftp Hlocal Hmkdir expected outcome.
  assert (Hall : uploads_ok w remote_dir (image_files dir) →
                 outcome.1 = Ok tt ∧ puts (trace outcome.2) = expected).
  { intros Hok. subst outcome. destruct Hconf as (Hload & Hcred & Hport).
    destruct (decide (image_files dir = [])) as [Hnil | Hne].
    - rewrite (upload_images_no_files w config port r dir
                 Hload Hport Hcred Hconnect Hsftp Hlocal Hmkdir Hnil).
      subst expected. fold (image_files dir). rewrite Hnil. split; reflexivity.
    - rewrite (upload_images_batch_ok w config port r dir
                 Hload Hport Hcred Hconnect Hsftp Hlocal Hmkdir Hne Hok).
      split; [reflexivity |]. cbn [snd trace].
      rewrite !puts_app, puts_loop_trace. cbn [puts omap list_omap app].
      apply app_nil_r. }
  split; [| exact Hall].
  destruct (first_failure w remote_dir (image_files dir))
    as [Hok | (before & f & after & e & Hsplit & Hok & Hf)].
  - destruct (Hall Hok) as [_ ->]. reflexivity.
  - subst outcome.
    rewrite (upload_images_batch_fails w config port r dir
               Hconf Hconnect Hsftp Hlocal Hmkdir before f after e Hsplit Hok Hf).
    cbn [snd trace]. rewrite !puts_app, puts_loop_trace.
    subst expected. fold (image_files dir). rewrite Hsplit, fmap_app, fmap_cons.
    exists (image_upload <$> after). unfold connect_event.
    destruct (is_Exception e); cbn [puts omap list_omap app]; rewrite <- app_assoc; reflexivity.
Qed.

Lemma image_upload_order_witness :
  let outcome :=
    upload_images (with_fs (products mixed_images) demo_world) (init_state empty_remote) in
  outcome.1 = Ok tt
  ∧ puts (trace outcome.2)
    = [("/srv/server/uploads/products/d.png",
        "/root/PerfumesStore/server/uploads/products/d.png");
       ("/srv/server/uploads/products/b.jpg",
        "/root/PerfumesStore/server/uploads/products/b.jpg");
       ("/srv/server/uploads/products/f.jpg",
        "/root/PerfumesStore/server/uploads/products/f.jpg");
       ("/srv/server/uploads/products/a.webp",
        "/root/PerfumesStore/server/uploads/products/a.webp")].
Proof.
  refine (proj2 (image_upload_order (with_fs (products mixed_images) demo_world)
                   demo_config 22 empty_remote mixed_images
                   demo_configured eq_refl eq_refl eq_refl _) _).
  - intros e He. discriminate He.
  - vm_compute. repeat constructor.
Defined.

Lemma filter_partition {A} (P Q : A → Prop) `{∀ x, Decision (P x)} `{∀ x, Decision (Q x)}
    (l : list A) :
  (∀ x, P x → Q x → False) →
  (filter P l ++ filter Q l)%list ≡ₚ filter (λ x, P x ∨ Q x) l.
Proof.
  intros Hdisjoint. induction l as [| x l IH]; [reflexivity |].
  destruct (decide (P x)) as [HP | HP]; destruct (decide (Q x)) as [HQ | HQ].
  - destruct (Hdisjoint x HP HQ).
  - rewrite (filter_cons_True P) by exact HP. rewrite (filter_cons_False Q) by exact HQ.
    rewrite (filter_cons_True (λ x, P x ∨ Q x)) by (by left).
    cbn [app]. by rewrite IH.
  - rewrite (filter_cons_False P) by exact HP. rewrite (filter_cons_True Q) by exact HQ.
    rewrite (filter_cons_True (λ x, P x ∨ Q x)) by (by right).
    rewrite <- Permutation_middle. by rewrite IH.
  - rewrite (filter_cons_False P) by exact HP. rewrite (filter_cons_False Q) by exact HQ.
    rewrite (filter_cons_False (λ x, P x ∨ Q x)) by (by intros [? | ?]).
    exact IH.
Qed.

(** Two suffixes of the same length that differ do not end the same name. *)
Lemma starts_with_two (a b s : string) :
  String.length a = String.length b →
  starts_with a s = true → starts_with b s = true → a = b.
Proof.
  revert b s. induction a as [| x a IH]; intros [| y b] s Hlen Ha Hb;
    try discriminate Hlen; [reflexivity |].
  destruct s as [| z s]; [discriminate Ha |]. cbn [starts_with] in Ha, Hb.
  apply andb_true_iff in Ha as [Hx Ha]. apply andb_true_iff in Hb as [Hy Hb].
  apply Ascii.eqb_eq in Hx, Hy. subst x y. f_equal.
  apply (IH b s); [by injection Hlen | exact Ha | exact Hb].
Qed.

Lemma starts_with_shorter (a b s : string) :
  starts_with (a +:+ b) s = true → starts_with a s = true.
Proof.
  revert s. induction a as [| x a IH]; intros s; [reflexivity |].
  rewrite append_cons. destruct s as [| z s]; [done |]. cbn [starts_with].
  intros [Hx Ha]%andb_true_iff. rewrite Hx. by apply IH.
Qed.

(** X13. The three patterns select every child whose name ends in [.png],
    [.jpg] or [.webp] exactly once, and no other child: names in other
    spellings, such as [.PNG] or [.jpeg], are left out. *)
Theorem image_files_partition (str name : string) (children : list node) :
  image_files (NDir str name children)
  ≡ₚ filter (λ c, is_image (node_name c) = true) children.
Proof.
  unfold image_files, glob, fnmatch.
  rewrite (filter_partition
             (λ c, ends_with ".jpg" (node_name c) = true)
             (λ c, ends_with ".webp" (node_name c) = true)).
  2: { intros c Hj Hw. unfold ends_with in Hj, Hw.
       change (String.rev ".webp") with ("pbew" +:+ ".") in Hw.
       apply starts_with_shorter in Hw.
       pose proof (starts_with_two (String.rev ".jpg") "pbew" _ eq_refl Hj Hw) as Heq. discriminate Heq. }
  rewrite (filter_partition
             (λ c, ends_with ".png" (node_name c) = true)
             (λ c, ends_with ".jpg" (node_name c) = true ∨ ends_with ".webp" (node_name c) = true)).
  2: { intros c Hp [Hj | Hw]; unfold ends_with in *.
       - pose proof (starts_with_two (String.rev ".png") (String.rev ".jpg") _ eq_refl Hp Hj) as Heq. discriminate Heq.
       - change (String.rev ".webp") with ("pbew" +:+ ".") in Hw.
         apply starts_with_shorter in Hw.
         pose proof (starts_with_two (String.rev ".png") "pbew" _ eq_refl Hp Hw) as Heq. discriminate Heq. }
  match goal with |- ?a ≡ₚ ?b => cut (a = b); [by intros -> |] end.
  apply list_filter_iff. intros c. unfold is_image.
  rewrite !orb_true_iff. tauto.
Qed.

(** X14. When, in [upload_images], the images before [f] upload and the
    upload of [f] raises an exception [e] of class [Exception], the
    script ends with [sys.exit(1)]: the uploads started are those before
    [f] and [f] itself, none after; standard error holds the handler's
    line for [e]; and [close] is the last call. *)
Theorem image_batch_fails_fast (w : world) (config : gmap string string) (port : Z)
    (r : remote_fs) (dir : node) (before : list node) (f : node) (after : list node)
    (e : exn) :
  configured w config port →
  connect_error w config port = None →
  w_open_sftp w = None →
  w_fs w (local_dir w) = Some dir →
  mkdir_tolerated w remote_dir →
  image_files dir = (before ++ f :: after)%list →
  uploads_ok w remote_dir before →
  put_error w f (destination remote_dir f) = Some e →
  is_Exception e = true →
  ∃ s,
    run (upload_images w) (init_state r) = (Exited 1, s)
    ∧ puts (trace s) = image_upload <$> (before ++ [f])%list
    ∧ stderr_of (trace s) = [line (handler_message e)]
    ∧ last (trace s) = Some EClose.
Proof.
  intros Hconf Hconnect Hsftp Hlocal Hmkdir Hsplit Hok Hf He. unfold run.
  rewrite (upload_images_batch_fails w config port r dir
             Hconf Hconnect Hsftp Hlocal Hmkdir before f after e Hsplit Hok Hf).
  rewrite He. eexists. split; [reflexivity |]. cbn [trace]. unfold connect_event.
  split; [| split].
  - rewrite !puts_app, puts_loop_trace, fmap_app. reflexivity.
  - rewrite !stderr_of_app, stderr_of_loop_trace. reflexivity.
  - rewrite !app_assoc. apply last_snoc.
Qed.

Lemma image_batch_fails_fast_witness :
  ∃ s,
    run (upload_images
           (with_faults None None None (Some (OSError "Failure")) None
              (with_fs (products mixed_images) demo_world)))
        (init_state empty_remote)
    = (Exited 1, s)
    ∧ puts (trace s)
      = [("/srv/server/uploads/products/d.png",
          "/root/PerfumesStore/server/uploads/products/d.png")]
    ∧ stderr_of (trace s) = [line "Error: Failure"]
    ∧ last (trace s) = Some EClose.
Proof.
  exact (image_batch_fails_fast
           (with_faults None None None (Some (OSError "Failure")) None
              (with_fs (products mixed_images) demo_world))
           demo_config 22 empty_remote mixed_images []
           (NFile "/srv/server/uploads/products/d.png" "d.png")
           [NFile "/srv/server/uploads/products/b.jpg" "b.jpg";
            NFile "/srv/server/uploads/products/f.jpg" "f.jpg";
            NFile "/srv/server/uploads/products/a.webp" "a.webp"]
           (OSError "Failure")
           demo_configured eq_refl eq_refl eq_refl
           (λ e He, ltac:(discriminate He))
           eq_refl (Forall_nil_2 _) eq_refl eq_refl).
Defined.

(** X15. When the SFTP channel cannot be opened, [scp_copy] and
    [upload_images] report the exception, close the session, which was
    connected, and end with 1; neither a directory is created nor an
    upload started. *)
Theorem sftp_failure_reported (w : world) (config : gmap string string) (port : Z)
    (r : remote_fs) (e : exn) :
  configured w config port →
  connect_error w config port = None →
  w_open_sftp w = Some e →
  is_Exception e = true →
  (∀ local_path remote_path local,
     w_fs w local_path = Some local →
     scp_copy w local_path remote_path (init_state r)
     = (Ok 1,
        {| trace := EStdout (connecting config) :: attempted config port
                    ++ [EOpenSftp; EStderr (line (handler_message e)); EClose];
           remote := r; session := Closed |}))
  ∧ (∀ dir,
       w_fs w (local_dir w) = Some dir →
       upload_images w (init_state r)
       = (Raise (SystemExit 1),
          {| trace := EStdout (connecting config) :: attempted config port
                      ++ [EOpenSftp; EStderr (line (handler_message e)); EClose];
             remote := r; session := Closed |})).
Proof.
  intros Hconf Hconnect Hsftp He. unfold connect_error in Hconnect.
  split.
  - intros local_path remote_path local Hlocal.
    unfold scp_copy. preflight Hconf. rewrite Hlocal.
    match goal with |- context [bind (open_sftp w) ?k] => set (rest := k) end.
    exec. rewrite Hconnect. exec. rewrite Hsftp. exec.
    rewrite handlers_run by exact He. reflexivity.
  - intros dir Hlocal.
    unfold upload_images. preflight Hconf. rewrite Hlocal.
    match goal with |- context [bind (open_sftp w) ?k] => set (rest := k) end.
    exec. rewrite Hconnect. exec. rewrite Hsftp. exec.
    rewrite handlers_run by exact He. reflexivity.
Qed.

Lemma sftp_failure_reported_witness :
  scp_copy (with_faults None (Some (SSHException "Channel closed.")) None None None
              demo_world)
    "up" "/srv/up" (init_state empty_remote)
  = (Ok 1,
     {| trace := EStdout (connecting demo_config) :: attempted demo_config 22
                 ++ [EOpenSftp;
                     EStderr (line "Error: SSH connection failed - Channel closed.");
                     EClose];
        remote := empty_remote; session := Closed |}).
Proof.
  exact (proj1 (sftp_failure_reported
           (with_faults None (Some (SSHException "Channel closed.")) None None None
              demo_world)
           demo_config 22 empty_remote (SSHException "Channel closed.")
           demo_configured eq_refl eq_refl eq_refl) "up" "/srv/up" demo_dir eq_refl).
Defined.

Lemma mkdir_raises (w : world) (path : string) (e : exn) (s : state) :
  w_mkdir_fault w path = Some e →
  is_IOError e = false →
  try_except (sftp_mkdir w path) pass_IOError s
  = (Raise e, advance [EMkdir path] (remote s) (session s) s).
Proof.
  intros Hfault Hio.
  unfold try_except, sftp_mkdir, bind, emit, fault, pass_IOError, advance.
  rewrite Hfault. unfold raise. cbn [trace remote session]. by rewrite Hio.
Qed.

(** X16. Only an [IOError] from [sftp.mkdir] is passed over.  When the call
    fails with another exception of class [Exception], such as an SSH
    error, the script reports it and ends with 1 without starting an
    upload or announcing one. *)
Theorem mkdir_failure_fatal (w : world) (config : gmap string string) (port : Z)
    (r : remote_fs) (e : exn) :
  configured w config port →
  connect_error w config port = None →
  w_open_sftp w = None →
  is_IOError e = false →
  is_Exception e = true →
  (∀ local_path remote_path str name children,
     w_fs w local_path = Some (NDir str name children) →
     regular_files children ≠ [] →
     w_mkdir_fault w remote_path = Some e →
     scp_copy w local_path remote_path (init_state r)
     = (Ok 1,
        {| trace := EStdout (connecting config) :: attempted config port
                    ++ [EOpenSftp; EMkdir remote_path;
                        EStderr (line (handler_message e)); EClose];
           remote := r; session := Closed |}))
  ∧ (∀ dir,
       w_fs w (local_dir w) = Some dir →
       w_mkdir_fault w remote_dir = Some e →
       upload_images w (init_state r)
       = (Raise (SystemExit 1),
          {| trace := EStdout (connecting config) :: attempted config port
                      ++ [EOpenSftp; EMkdir remote_dir;
                          EStderr (line (handler_message e)); EClose];
             remote := r; session := Closed |})).
Proof.
  intros Hconf Hconnect Hsftp Hio He. unfold connect_error in Hconnect.
  split.
  - intros local_path remote_path str name children Hlocal Hfiles Hfault.
    unfold scp_copy. preflight Hconf. rewrite Hlocal, glob_star.
    fold (regular_files children).
    destruct (regular_files children) as [| f files]; [done |].
    set (mkdir := try_except (sftp_mkdir w remote_path) pass_IOError).
    match goal with |- context [bind mkdir ?k] => set (rest := k) end.
    exec. rewrite Hconnect. exec. rewrite Hsftp.
    subst mkdir. rewrite (mkdir_raises w remote_path e _ Hfault Hio).
    rewrite handlers_run by exact He. reflexivity.
  - intros dir Hlocal Hfault.
    unfold upload_images. preflight Hconf. rewrite Hlocal.
    set (mkdir := try_except (sftp_mkdir w remote_dir) pass_IOError).
    match goal with |- context [bind mkdir ?k] => set (rest := k) end.
    exec. rewrite Hconnect. exec. rewrite Hsftp.
    subst mkdir. rewrite (mkdir_raises w remote_dir e _ Hfault Hio).
    rewrite handlers_run by exact He. reflexivity.
Qed.

Lemma mkdir_failure_fatal_witness :
  upload_images
    (with_faults None None (Some (SSHException "Server connection dropped")) None None
       demo_world)
    (init_state empty_remote)
  = (Raise (SystemExit 1),
     {| trace := EStdout (connecting demo_config) :: attempted demo_config 22
                 ++ [EOpenSftp; EMkdir remote_dir;
                     EStderr (line "Error: SSH connection failed - Server connection dropped");
                     EClose];
        remote := empty_remote; session := Closed |}).
Proof.
  exact (proj2 (mkdir_failure_fatal
           (with_faults None None (Some (SSHException "Server connection dropped")) None None
              demo_world)
           demo_config 22 empty_remote (SSHException "Server connection dropped")
           demo_configured eq_refl eq_refl eq_refl eq_refl) demo_images eq_refl eq_refl).
Defined.

(** Shows that an event is not in an explicit trace. *)
Ltac absent :=
  let Hin := fresh "Hin" in
  intros Hin;
  repeat (apply elem_of_cons in Hin as [Hin | Hin]; [discriminate Hin |]);
  by apply elem_of_nil in Hin.

(** X17. When the command cannot be started, or reading one of its streams
    fails, with an exception [e] of class [Exception], [ssh_run] prints
    the handler's line for [e] and calls [sys.exit(1)] after closing the
    session.  Nothing is written to standard output: output that was read
    before the failure is dropped, and the exit status of the command is
    not asked for. *)
Theorem command_failure_reported (w : world) (config : gmap string string) (port : Z)
    (r : remote_fs) (command : string) (e : exn) :
  configured w config port →
  connect_error w config port = None →
  command_error w command = Some e →
  is_Exception e = true →
  ∃ s,
    ssh_run w command (init_state r) = (Raise (SystemExit 1), s)
    ∧ stdout_of (trace s) = []
    ∧ stderr_of (trace s) = [line (handler_message e)]
    ∧ (ERecvExit ∉ trace s)
    ∧ last (trace s) = Some EClose
    ∧ session s = Closed.
Proof.
  intros Hconf Hconnect Hcommand He.
  unfold connect_error in Hconnect. unfold command_error in Hcommand.
  unfold ssh_run. preflight Hconf.
  unfold exec_command, stdout_read, stderr_read.
  exec. rewrite Hconnect. exec.
  destruct (w_exec w command) as [e1 |].
  { injection Hcommand as ->. exec. rewrite handlers_run by exact He. exec.
    eexists. split; [reflexivity |]. cbn [trace session].
    repeat split. absent. }
  exec. destruct (w_stdout w) as [e2 | out].
  { injection Hcommand as ->. exec. rewrite handlers_run by exact He. exec.
    eexists. split; [reflexivity |]. cbn [trace session].
    repeat split. absent. }
  exec. destruct (w_stderr w) as [e3 | err]; [| discriminate Hcommand].
  injection Hcommand as ->. exec. rewrite handlers_run by exact He. exec.
  eexists. split; [reflexivity |]. cbn [trace session].
  repeat split. absent.
Qed.

Lemma command_failure_reported_witness :
  ∃ s,
    ssh_run (with_streams (inr [x68; x69]) (inl (SSHException "Channel closed."))
               demo_world)
      "ls" (init_state empty_remote) = (Raise (SystemExit 1), s)
    ∧ stdout_of (trace s) = []
    ∧ stderr_of (trace s) = [line "Error: SSH connection failed - Channel closed."]
    ∧ (ERecvExit ∉ trace s)
    ∧ last (trace s) = Some EClose
    ∧ session s = Closed.
Proof.
  exact (command_failure_reported
           (with_streams (inr [x68; x69]) (inl (SSHException "Channel closed."))
              demo_world)
           demo_config 22 empty_remote "ls" (SSHException "Channel closed.")
           demo_configured eq_refl eq_refl eq_refl).
Defined.

(** X18. An exception outside [Exception], such as [KeyboardInterrupt],
    raised while the command runs is not caught by any handler: [ssh_run]
    closes the session and lets it propagate, printing nothing. *)
Theorem command_interrupt_propagates (w : world) (config : gmap string string)
    (port : Z) (r : remote_fs) (command : string) (e : exn) :
  configured w config port →
  connect_error w config port = None →
  command_error w command = Some e →
  is_Exception e = false →
  ∃ s,
    ssh_run w command (init_state r) = (Raise e, s)
    ∧ stdout_of (trace s) = []
    ∧ stderr_of (trace s) = []
    ∧ last (trace s) = Some EClose
    ∧ session s = Closed.
Proof.
  intros Hconf Hconnect Hcommand He.
  unfold connect_error in Hconnect. unfold command_error in Hcommand.
  unfold ssh_run. preflight Hconf.
  unfold exec_command, stdout_read, stderr_read.
  exec. rewrite Hconnect. exec.
  destruct (w_exec w command) as [e1 |].
  { injection Hcommand as ->. exec. rewrite handlers_none by exact He.
    eexists. split; [reflexivity |]. repeat split. }
  exec. destruct (w_stdout w) as [e2 | out].
  { injection Hcommand as ->. exec. rewrite handlers_none by exact He.
    eexists. split; [reflexivity |]. repeat split. }
  exec. destruct (w_stderr w) as [e3 | err]; [| discriminate Hcommand].
  injection Hcommand as ->. exec. rewrite handlers_none by exact He.
  eexists. split; [reflexivity |]. repeat split.
Qed.

Lemma command_interrupt_propagates_witness :
  ∃ s,
    ssh_run (with_streams (inl KeyboardInterrupt) (inr []) demo_world)
      "sleep 60" (init_state empty_remote) = (Raise KeyboardInterrupt, s)
    ∧ stdout_of (trace s) = []
    ∧ stderr_of (trace s) = []
    ∧ last (trace s) = Some EClose
    ∧ session s = Closed.
Proof.
  exact (command_interrupt_propagates
           (with_streams (inl KeyboardInterrupt) (inr []) demo_world)
           demo_config 22 empty_remote "sleep 60" KeyboardInterrupt
           demo_configured eq_refl eq_refl eq_refl).
Defined.

(** ** Nothing to upload *)

(** X19. Given a directory without a regular file, one that holds only
    subdirectories included, [scp_copy] says so and returns 0 once the
    channel is open: it does not try to create the remote directory,
    starts no upload, and leaves the SFTP channel to be closed with the
    session. *)
Theorem empty_directory_untouched (w : world) (config : gmap string string) (port : Z)
    (r : remote_fs) (local_path remote_path str name : string) (children : list node) :
  configured w config port →
  connect_error w config port = None →
  w_open_sftp w = None →
  w_fs w local_path = Some (NDir str name children) →
  Forall (λ c, is_file c = false) children →
  scp_copy w local_path remote_path (init_state r)
  = (Ok 0,
     {| trace := EStdout (connecting config) :: attempted config port
                 ++ [EOpenSftp; EStdout (line "No files found to upload."); EClose];
        remote := r; session := Closed |}).
Proof.
  intros (Hload & Hcred & Hport) Hconnect Hsftp Hlocal Hnone.
  apply (scp_copy_no_files w config port local_path remote_path r str name children
           Hload Hport Hcred Hconnect Hsftp Hlocal).
  clear Hlocal. induction Hnone as [| c children Hc _ IH]; [reflexivity |].
  rewrite filter_cons_False by (by rewrite Hc). exact IH.
Qed.

Lemma empty_directory_untouched_witness :
  scp_copy (with_fs (products decoy_images) demo_world)
    "/srv/server/uploads/products" "/srv/up" (init_state empty_remote)
  = (Ok 0,
     {| trace := EStdout (connecting demo_config) :: attempted demo_config 22
                 ++ [EOpenSftp; EStdout (line "No files found to upload."); EClose];
        remote := empty_remote; session := Closed |}).
Proof.
  apply (empty_directory_untouched (with_fs (products decoy_images) demo_world)
           demo_config 22 empty_remote "/srv/server/uploads/products" "/srv/up"
           "/srv/server/uploads/products" "products"
           [NDir "/srv/server/uploads/products/thumbs.png" "thumbs.png" []]
           demo_configured eq_refl eq_refl eq_refl).
  repeat constructor.
Defined.

(** X20. [upload_images] creates the remote directory before it looks for
    images: when no child of the products directory matches, the
    directory is there all the same, no upload is started and the script
    ends normally. *)
Theorem no_image_creates_directory (w : world) (config : gmap string string) (port : Z)
    (r : remote_fs) (dir : node) :
  configured w config port →
  connect_error w config port = None →
  w_open_sftp w = None →
  w_fs w (local_dir w) = Some dir →
  w_mkdir_fault w remote_dir = None →
  remote_dir ∉ r_dirs r →
  image_files dir = [] →
  upload_images w (init_state r)
  = (Ok tt,
     {| trace := EStdout (connecting config) :: attempted config port
                 ++ [EOpenSftp; EMkdir remote_dir;
                     EStdout (line "No image files found to upload."); EClose];
        remote := {| r_dirs := {[remote_dir]} ∪ r_dirs r; r_files := r_files r |};
        session := Closed |}).
Proof.
  intros (Hload & Hcred & Hport) Hconnect Hsftp Hlocal Hfault Hnew Hnone.
  assert (Hmkdir : ∀ e, w_mkdir_fault w remote_dir = Some e → is_IOError e = true)
    by (intros e He; rewrite Hfault in He; discriminate He).
  rewrite (upload_images_no_files w config port r dir
             Hload Hport Hcred Hconnect Hsftp Hlocal Hmkdir Hnone).
  unfold after_mkdir. rewrite Hfault, bool_decide_eq_false_2 by exact Hnew.
  reflexivity.
Qed.

Lemma no_image_creates_directory_witness :
  upload_images (with_fs (products (NDir "/srv/server/uploads/products" "products"
                                      [NFile "/srv/server/uploads/products/a.gif" "a.gif"]))
                   demo_world)
    (init_state empty_remote)
  = (Ok tt,
     {| trace := EStdout (connecting demo_config) :: attempted demo_config 22
                 ++ [EOpenSftp; EMkdir remote_dir;
                     EStdout (line "No image files found to upload."); EClose];
        remote := {| r_dirs := {[remote_dir]} ∪ r_dirs empty_remote;
                     r_files := r_files empty_remote |};
        session := Closed |}).
Proof.
  apply (no_image_creates_directory
           (with_fs (products (NDir "/srv/server/uploads/products" "products"
                                 [NFile "/srv/server/uploads/products/a.gif" "a.gif"]))
              demo_world)
           demo_config 22 empty_remote
           (NDir "/srv/server/uploads/products" "products"
              [NFile "/srv/server/uploads/products/a.gif" "a.gif"])
           demo_configured eq_refl eq_refl eq_refl eq_refl);
    [apply not_elem_of_empty | reflexivity].
Defined.

(** ** What a whole script adds to the trace *)

Lemma emits_try_finally (P : event → Prop) {A} (m : M A) (fin : M unit) :
  emits P m → emits P fin → emits P (try_finally m fin).
Proof.
  intros Hm Hfin s. unfold try_finally.
  destruct (Hm s) as (t1 & Ht1 & HP1). destruct (m s) as [res s1]. cbn [snd] in Ht1.
  destruct (Hfin s1) as (t2 & Ht2 & HP2). destruct (fin s1) as [[[] | e] s2];
    cbn [snd] in *; exists (t1 ++ t2)%list;
    (split; [by rewrite Ht2, Ht1, app_assoc | by apply Forall_app]).
Qed.

Lemma emits_get_port (P : event → Prop) (config : gmap string string) :
  emits P (get_port config).
Proof. intros s. exists []. split; [symmetry; apply app_nil_r | constructor]. Qed.

Lemma emits_close (P : event → Prop) : P EClose → emits P close.
Proof.
  intros HP. unfold close.
  apply emits_bind; [by apply emits_emit |]. intros _.
  apply emits_bind; [apply emits_get_session |]. intros st. apply emits_set_session.
Qed.

(** What [m] adds to an empty trace. *)
Lemma emits_from_start (P : event → Prop) {A} (m : M A) (r : remote_fs) :
  emits P m → Forall P (trace (m (init_state r)).2).
Proof. intros Hm. by destruct (Hm (init_state r)) as (t & -> & Ht). Qed.

(** Shows that every event of a script satisfies a predicate, given a
    tactic [event] for the events themselves. *)
Ltac only_events event :=
  repeat first
    [ apply emits_ret | apply emits_raise | apply emits_fault
    | apply emits_set_session | apply emits_get_session
    | apply emits_get_port
    | apply emits_upload_loop; event
    | apply emits_sftp_put; event
    | apply emits_sftp_mkdir; event
    | apply emits_emit; event
    | apply emits_close; event
    | eapply emits_pass_IOError; eassumption
    | eapply emits_handlers; [event | | eassumption]
    | apply emits_bind; [| intros ?]
    | apply emits_try_except; [| intros ? ? ?]
    | apply emits_try_finally
    | match goal with
      | |- emits _ (if ?b then _ else _) => destruct b
      | |- emits _ (match ?x with _ => _ end) => destruct x
      end
    | progress unfold load_env, SSHClient, set_missing_host_key_policy, connect, open_sftp,
        sftp_close, exec_command, stdout_read, stderr_read, recv_exit_status,
        println, println_err, print, print_err, sys_exit ].

(** ** What [ssh_run] prints *)

Lemma sanitize_is_ascii (text : list Z) : is_ascii (ascii_sanitize text) = true.
Proof.
  unfold ascii_sanitize. induction text as [| cp text IH]; [reflexivity |].
  rewrite fmap_cons. cbn [String.string_of_list_ascii is_ascii]. rewrite IH, andb_true_r.
  destruct ((0 <=? cp) && (cp <? 128)) eqn:Hcp; [| reflexivity].
  apply andb_true_iff in Hcp as [H0%Z.leb_le H1%Z.ltb_lt].
  apply Nat.ltb_lt. rewrite nat_ascii_embedding; lia.
Qed.

(** X21. Whatever the server sends and whatever fails, what [ssh_run]
    writes to standard output is ASCII: the output of the command passes
    through [encode('ascii', errors='replace')], and nothing else is
    written there. *)
Theorem stdout_is_ascii (w : world) (command : string) (r : remote_fs) (text : string) :
  EStdout text ∈ trace (ssh_run w command (init_state r)).2 →
  is_ascii text = true.
Proof.
  assert (Hall : emits ascii_stdout (ssh_run w command)).
  { unfold ssh_run.
    only_events ltac:(intros; first [exact I | apply sanitize_is_ascii]). }
  intros Hin. apply (emits_from_start _ _ r) in Hall.
  rewrite Forall_forall in Hall. exact (Hall _ Hin).
Qed.

Lemma stdout_is_ascii_witness :
  EStdout (String "?" (String "5" ""))
    ∈ trace (ssh_run (with_streams (inr [xe2; x82; xac; x35]) (inr []) demo_world)
               "echo" (init_state empty_remote)).2
  ∧ is_ascii (String "?" (String "5" "")) = true.
Proof.
  assert (Hin : EStdout (String "?" (String "5" ""))
                  ∈ trace (ssh_run (with_streams (inr [xe2; x82; xac; x35]) (inr [])
                                      demo_world)
                             "echo" (init_state empty_remote)).2).
  { vm_compute. do 7 apply list_elem_of_further. apply list_elem_of_here. }
  split; [exact Hin |].
  exact (stdout_is_ascii _ "echo" empty_remote _ Hin).
Defined.

Lemma decode_ascii (bs : list byte) :
  Forall (λ b, byte_val b < 128) bs → decode_utf8_replace bs = byte_val <$> bs.
Proof.
  unfold decode_utf8_replace. induction 1 as [| b bs Hb _ IH]; [reflexivity |].
  cbn [utf8_scan]. unfold lead.
  destruct (Z.leb_spec (byte_val b) 0x7F) as [_ | Hlt]; [| lia].
  rewrite !fmap_cons, IH. reflexivity.
Qed.

Lemma sanitize_bytes (bs : list byte) :
  Forall (λ b, byte_val b < 128) bs →
  ascii_sanitize (byte_val <$> bs) = String.string_of_list_byte bs.
Proof.
  unfold ascii_sanitize, String.string_of_list_byte.
  induction 1 as [| b bs Hb _ IH]; [reflexivity |].
  rewrite !fmap_cons. cbn [String.string_of_list_ascii map]. rewrite IH. f_equal.
  clear IH. apply Z.ltb_lt in Hb. revert Hb.
  destruct b; intros Hb; try discriminate Hb; reflexivity.
Qed.

(** X22. Output that is ASCII already is passed on byte for byte: when
    the command runs and both streams hold bytes below 128 only,
    [ssh_run] writes the bytes of the remote standard output to standard
    output and those of the remote standard error to standard error,
    without adding a line end, and writes nothing for an empty stream. *)
Theorem ascii_output_verbatim (w : world) (config : gmap string string) (port : Z)
    (command : string) (r : remote_fs) (out err : list byte) :
  configured w config port →
  connect_error w config port = None →
  w_exec w command = None →
  w_stdout w = inr out →
  w_stderr w = inr err →
  Forall (λ b, byte_val b < 128) out →
  Forall (λ b, byte_val b < 128) err →
  ∃ s,
    ssh_run w command (init_state r) = (Ok (w_exit_status w), s)
    ∧ stdout_of (trace s) = (if nonempty out then [String.string_of_list_byte out] else [])
    ∧ stderr_of (trace s) = (if nonempty err then [String.string_of_list_byte err] else []).
Proof.
  intros Hconf Hconnect Hexec Hout Herr Hascii_out Hascii_err.
  unfold connect_error in Hconnect.
  unfold ssh_run. preflight Hconf.
  unfold exec_command, stdout_read, stderr_read, recv_exit_status.
  exec. rewrite Hconnect. exec. rewrite Hexec. exec. rewrite Hout. exec.
  rewrite Herr. exec.
  rewrite !decode_ascii, !sanitize_bytes by assumption.
  destruct out as [| b1 out], err as [| b2 err]; rewrite ?fmap_cons;
    exec; eexists; (split; [reflexivity |]); split; reflexivity.
Qed.

Lemma ascii_output_verbatim_witness :
  ∃ s,
    ssh_run demo_world "echo hi" (init_state empty_remote) = (Ok 17, s)
    ∧ stdout_of (trace s) = [line "hi"]
    ∧ stderr_of (trace s) = [].
Proof.
  apply (ascii_output_verbatim demo_world demo_config 22 "echo hi" empty_remote
           [x68; x69; x0a] [] demo_configured eq_refl eq_refl eq_refl eq_refl).
  - repeat constructor.
  - constructor.
Defined.

(** However the guarded block ends, its trace is the connection attempt,
    the calls of the session, and [close]. *)
Lemma guarded_session {A} (w : world) (host : option string) (port : Z)
    (user password : option string) (k : unit → M A) (on_error : M A) (s : state) :
  (∀ a, emits in_session (k a)) →
  emits in_session on_error →
  ∃ mid,
    trace (try_finally
             (try_except (bind (connect w host port user password 30) k)
                (handlers on_error))
             close s).2
    = (trace s ++ [EConnect host port user password 30] ++ mid ++ [EClose])%list
    ∧ Forall in_session mid.
Proof.
  intros Hk Herror.
  set (s1 := {| trace := trace s ++ [EConnect host port user password 30];
                remote := remote s; session := session s |}).
  set (m := try_except
              (bind (bind (fault (w_connect w host port user password))
                       (λ _, set_session Connected)) k)
              (handlers on_error)).
  assert (Hm : emits in_session m).
  { subst m. only_events ltac:(intros; exact I); [apply Hk | exact Herror]. }
  assert (Hstart :
    try_finally
      (try_except (bind (connect w host port user password 30) k) (handlers on_error))
      close s
    = try_finally m close s1) by reflexivity.
  rewrite Hstart. destruct (Hm s1) as (mid & Hmid & HP). exists mid. split; [| exact HP].
  unfold try_finally. destruct (m s1) as [res s2]. cbn [snd] in Hmid.
  unfold close, bind, emit, get_session, set_session. cbn [trace snd].
  rewrite Hmid. subst s1. cbn [trace]. by rewrite <- !app_assoc.
Qed.

(** Splits a script at its guarded block and names what follows [connect]. *)
Ltac enter_session pre :=
  match goal with
  | |- context [try_finally (try_except (bind (connect ?w ?h ?p ?u ?pw 30) ?k)
                               (handlers ?on_error)) close] =>
      let rest := fresh "rest" in
      let Hrest := fresh "Hrest" in
      set (rest := k);
      assert (Hrest : ∀ a, emits in_session (rest a))
        by (intros ?; subst rest; only_events ltac:(intros; exact I));
      let guarded := fresh "guarded" in
      set (guarded := try_finally (try_except (bind (connect w h p u pw 30) rest)
                                     (handlers on_error)) close);
      exec; subst guarded;
      match goal with
      | |- context [try_finally _ close ?s] =>
          let mid := fresh "mid" in
          let Hmid := fresh "Hmid" in
          destruct (guarded_session w h p u pw rest on_error s Hrest
                      ltac:(only_events ltac:(intros; exact I)))
            as (mid & -> & Hmid);
          right; exists pre, h, p, u, pw, mid;
          split; [reflexivity | split; [repeat constructor | exact Hmid]]
      end
  end.

Lemma scp_copy_session (w : world) (local_path remote_path : string) (r : remote_fs) :
  one_session (trace (scp_copy w local_path remote_path (init_state r)).2).
Proof.
  unfold scp_copy, bind at 1, load_env.
  destruct (w_env w) as [lines |]; [| left; cbn; repeat constructor].
  unfold ret. generalize (foldl load_line ∅ lines). intros config.
  unfold bind at 1, get_port.
  destruct (port_of config) as [port | e]; [| left; constructor].
  cbv zeta. destruct (py_all _); cbn [negb]; [| left; cbn; repeat constructor].
  destruct (w_fs w local_path) as [local |]; [| left; cbn; repeat constructor].
  enter_session [EStdout (line ("Connecting to " +:+ fmt (config !! "SSH_HOST") +:+ "..."))].
Qed.

Lemma ssh_run_session (w : world) (command : string) (r : remote_fs) :
  one_session (trace (ssh_run w command (init_state r)).2).
Proof.
  unfold ssh_run, bind at 1, load_env.
  destruct (w_env w) as [lines |]; [| left; cbn; repeat constructor].
  unfold ret. generalize (foldl load_line ∅ lines). intros config.
  unfold bind at 1, get_port.
  destruct (port_of config) as [port | e]; [| left; constructor].
  cbv zeta. destruct (py_all _); cbn [negb]; [| left; cbn; repeat constructor].
  enter_session (@nil event).
Qed.

Lemma upload_images_session (w : world) (r : remote_fs) :
  one_session (trace (upload_images w (init_state r)).2).
Proof.
  unfold upload_images, bind at 1, load_env.
  destruct (w_env w) as [lines |]; [| left; cbn; repeat constructor].
  unfold ret. generalize (foldl load_line ∅ lines). intros config.
  unfold bind at 1, get_port.
  destruct (port_of config) as [port | e]; [| left; constructor].
  cbv zeta. destruct (py_all _); cbn [negb]; [| left; cbn; repeat constructor].
  destruct (w_fs w (local_dir w)) as [dir |]; [| left; cbn; repeat constructor].
  enter_session [EStdout (line ("Connecting to " +:+ fmt (config !! "SSH_HOST") +:+ "..."))].
Qed.

(** X23. Whatever the environment does and whatever the arguments, a run
    of each of the three scripts either only prints, or creates one
    client, sets its host key policy, tries to connect once, with a
    timeout of 30 seconds, and ends with [close]: nothing is sent to the
    server before the connection attempt, no failure leads to a second
    attempt, and nothing follows [close]. *)
Theorem one_session_per_run (w : world) (r : remote_fs) :
  (∀ argv, one_session (trace (run (scp_main w argv) (init_state r)).2))
  ∧ (∀ argv, one_session (trace (run (ssh_main w argv) (init_state r)).2))
  ∧ one_session (trace (run (upload_images w) (init_state r)).2).
Proof.
  split; [| split].
  - intros argv. destruct argv as [| script [| local_path [| remote_path args]]];
      [left; cbn; repeat constructor .. |].
    unfold scp_main. rewrite run_state by reflexivity. apply scp_copy_session.
  - intros argv. destruct argv as [| script [| word words]];
      [left; cbn; repeat constructor .. |].
    unfold ssh_main. rewrite run_state by reflexivity. apply ssh_run_session.
  - replace (run (upload_images w) (init_state r)).2
      with (upload_images w (init_state r)).2; [apply upload_images_session |].
    unfold run. destruct (upload_images w (init_state r)) as [[[] | e] s];
      [reflexivity | by destruct e].
Qed.

Section Ends.

Variable Perr : exn → Prop.

Lemma ends_ret {A} (Pok : A → Prop) (a : A) : Pok a → ends Pok Perr (ret a).
Proof. intros Ha s. exact Ha. Qed.

Lemma ends_raise {A} (Pok : A → Prop) (e : exn) : Perr e → ends Pok Perr (raise e).
Proof. intros He s. exact He. Qed.

Lemma ends_bind {A B} (Pa : A → Prop) (Pb : B → Prop) (m : M A) (k : A → M B) :
  ends Pa Perr m → (∀ a, Pa a → ends Pb Perr (k a)) → ends Pb Perr (bind m k).
Proof.
  intros Hm Hk s. unfold bind. specialize (Hm s).
  destruct (m s) as [[a | e] s1]; cbn [fst] in *; [exact (Hk a Hm s1) | exact Hm].
Qed.

Lemma ends_then {A B} (Pb : B → Prop) (m : M A) (k : A → M B) :
  ends (λ _, True) Perr m → (∀ a, ends Pb Perr (k a)) → ends Pb Perr (bind m k).
Proof. intros Hm Hk. apply (ends_bind (λ _, True)); [exact Hm | intros a _; apply Hk]. Qed.

Lemma ends_emit (e : event) : ends (λ _, True) Perr (emit e).
Proof. intros s. exact I. Qed.

Lemma ends_set_session (st : session_state) : ends (λ _, True) Perr (set_session st).
Proof. intros s. exact I. Qed.

Lemma ends_get_session : ends (λ _, True) Perr get_session.
Proof. intros s. exact I. Qed.

Lemma ends_get_remote : ends (λ _, True) Perr get_remote.
Proof. intros s. exact I. Qed.

Lemma ends_set_remote (r : remote_fs) : ends (λ _, True) Perr (set_remote r).
Proof. intros s. exact I. Qed.

Lemma ends_fault (o : option exn) :
  (∀ e, o = Some e → Perr e) → ends (λ _, True) Perr (fault o).
Proof. intros Ho s. destruct o as [e |]; [exact (Ho e eq_refl) | exact I]. Qed.

Lemma ends_close : ends (λ _, True) Perr close.
Proof. intros s. exact I. Qed.

Lemma ends_try_finally {A} (Pok : A → Prop) (m : M A) (fin : M unit) :
  ends Pok Perr m → ends (λ _, True) Perr fin → ends Pok Perr (try_finally m fin).
Proof.
  intros Hm Hfin s. unfold try_finally. specialize (Hm s).
  destruct (m s) as [res s1]. specialize (Hfin s1).
  destruct (fin s1) as [[[] | e] s2]; cbn [fst] in *; [exact Hm | exact Hfin].
Qed.

Lemma ends_try_except {A} (Pok : A → Prop) (Pin : exn → Prop) (m : M A)
    (h : exn → option (M A)) :
  ends Pok Pin m →
  (∀ e, Pin e → match h e with Some k => ends Pok Perr k | None => Perr e end) →
  ends Pok Perr (try_except m h).
Proof.
  intros Hm Hh s. unfold try_except. specialize (Hm s).
  destruct (m s) as [[a | e] s1]; cbn [fst] in *; [exact Hm |].
  specialize (Hh e Hm). destruct (h e) as [k |]; [exact (Hh s1) | exact Hh].
Qed.

End Ends.

(** ** What the guarded block can raise *)

Section Tame.

Variable w : world.
Hypothesis Htame : tame w.

Let failure (e : exn) : Prop := is_Exception e = true.

Lemma ends_connect (host : option string) (port : Z) (user password : option string)
    (timeout : Z) :
  ends (λ _, True) failure (connect w host port user password timeout).
Proof.
  unfold connect. apply ends_then; [apply ends_emit |]. intros _.
  apply ends_then; [| intros _; apply ends_set_session].
  apply ends_fault. intros e He. exact (proj1 Htame _ _ _ _ e He).
Qed.

Lemma ends_open_sftp : ends (λ _, True) failure (open_sftp w).
Proof.
  unfold open_sftp. apply ends_then; [apply ends_emit |]. intros _.
  apply ends_fault. intros e He. exact (proj1 (proj2 Htame) e He).
Qed.

Lemma ends_mkdir (path : string) :
  ends (λ _, True) failure (try_except (sftp_mkdir w path) pass_IOError).
Proof.
  apply (ends_try_except _ _ failure).
  - unfold sftp_mkdir. apply ends_then; [apply ends_emit |]. intros _.
    apply ends_then.
    + apply ends_fault. intros e He. exact (proj1 (proj2 (proj2 Htame)) path e He).
    + intros _. apply ends_then; [apply ends_get_remote |]. intros r.
      destruct (bool_decide _); [by apply ends_raise | apply ends_set_remote].
  - intros e He. unfold pass_IOError. destruct (is_IOError e); [by apply ends_ret | exact He].
Qed.

Lemma ends_sftp_put (f : node) (remote_path : string) :
  ends (λ _, True) failure (sftp_put w f remote_path).
Proof.
  unfold sftp_put. apply ends_then; [apply ends_emit |]. intros _.
  apply ends_then; [destruct (is_file f); [by apply ends_ret | by apply ends_raise] |].
  intros _. apply ends_then.
  - apply ends_fault. intros e He.
    exact (proj1 (proj2 (proj2 (proj2 Htame))) _ _ e He).
  - intros _. apply ends_then; [apply ends_get_remote |]. intros r. apply ends_set_remote.
Qed.

Lemma ends_upload_loop (remote_path : string) (total : nat) (files : list node) (i : nat) :
  ends (λ _, True) failure (upload_loop w remote_path total i files).
Proof.
  revert i. induction files as [| f files IH]; intros i; [by apply ends_ret |].
  cbn [upload_loop]. apply ends_then; [apply ends_sftp_put |]. intros _.
  apply ends_then; [| intros _; apply IH].
  destruct (_ || _); [apply ends_emit | by apply ends_ret].
Qed.

Lemma ends_exec_command (command : string) :
  ends (λ _, True) failure (exec_command w command).
Proof.
  unfold exec_command. apply ends_then; [apply ends_emit |]. intros _.
  apply ends_fault. intros e He.
  exact (proj1 (proj2 (proj2 (proj2 (proj2 Htame)))) command e He).
Qed.

Lemma ends_stdout_read : ends (λ _, True) failure (stdout_read w).
Proof.
  unfold stdout_read. apply ends_then; [apply ends_emit |]. intros _.
  destruct (w_stdout w) as [e | bs] eqn:Hout; [| by apply ends_ret].
  apply ends_raise. exact (proj1 (proj2 (proj2 (proj2 (proj2 (proj2 Htame))))) e Hout).
Qed.

Lemma ends_stderr_read : ends (λ _, True) failure (stderr_read w).
Proof.
  unfold stderr_read. apply ends_then; [apply ends_emit |]. intros _.
  destruct (w_stderr w) as [e | bs] eqn:Herr; [| by apply ends_ret].
  apply ends_raise. exact (proj2 (proj2 (proj2 (proj2 (proj2 (proj2 Htame))))) e Herr).
Qed.

(** The handlers catch every failure; what they do decides how the
    guarded block ends. *)
Lemma ends_handlers {A} (Pok : A → Prop) (Perr : exn → Prop) (on_error : M A) (e : exn) :
  ends Pok Perr on_error →
  failure e →
  match handlers on_error e with Some k => ends Pok Perr k | None => Perr e end.
Proof.
  intros Herror He. rewrite handlers_run by exact He.
  apply ends_then; [apply ends_emit | intros _; exact Herror].
Qed.

End Tame.

Lemma ends_load_env (w : world) : ends (λ _, True) exit_1 (load_env w).
Proof.
  unfold load_env. destruct (w_env w); [by apply ends_ret |].
  apply ends_then; [apply ends_emit | intros _; apply ends_raise; by intros ? [= <-]].
Qed.

Lemma ends_get_port (config : gmap string string) :
  ends (λ _, True) exit_1 (get_port config).
Proof.
  intros s. unfold get_port, port_of. cbn [fst].
  destruct (config !! "SSH_PORT") as [text |]; [| exact I].
  destruct (py_int text); [exact I | intros code Hcode; discriminate Hcode].
Qed.

(** Follows a script to its ends, under [tame]. *)
Ltac ends_step Htame :=
  lazymatch goal with
  | |- ends _ _ (emit _) => apply ends_emit
  | |- ends _ _ (set_session _) => apply ends_set_session
  | |- ends _ _ close => apply ends_close
  | |- ends _ _ (load_env _) => apply ends_load_env
  | |- ends _ _ (get_port _) => apply ends_get_port
  | |- ends _ _ (connect _ _ _ _ _ _) => apply ends_connect; exact Htame
  | |- ends _ _ (open_sftp _) => apply ends_open_sftp; exact Htame
  | |- ends _ _ (try_except (sftp_mkdir _ _) pass_IOError) => apply ends_mkdir; exact Htame
  | |- ends _ _ (sftp_put _ _ _) => apply ends_sftp_put; exact Htame
  | |- ends _ _ (upload_loop _ _ _ _ _) => apply ends_upload_loop; exact Htame
  | |- ends _ _ (exec_command _ _) => apply ends_exec_command; exact Htame
  | |- ends _ _ (stdout_read _) => apply ends_stdout_read; exact Htame
  | |- ends _ _ (stderr_read _) => apply ends_stderr_read; exact Htame
  | |- ends _ _ (ret _) => apply ends_ret; first [exact I | reflexivity | by left | by right]
  | |- ends _ _ (raise _) => apply ends_raise; first [reflexivity | by intros ? [= <-]]
  | |- ends _ _ (try_finally _ _) => apply ends_try_finally
  | |- ends _ _ (try_except _ (handlers _)) =>
      apply (ends_try_except _ _ (λ e, is_Exception e = true));
        [| intros ? ?; apply ends_handlers; [| assumption]]
  | |- ends _ _ (bind _ _) => apply ends_then; [| intros ?]
  | |- ends _ _ (if ?b then _ else _) => destruct b
  | |- ends _ _ (match ?x with Some _ => _ | None => _ end) => destruct x
  | |- ends _ _ _ =>
      progress unfold println, println_err, print, print_err, SSHClient,
        set_missing_host_key_policy, sftp_close, sys_exit
  end.

Lemma scp_copy_ends (w : world) (local_path remote_path : string) :
  tame w →
  ends (λ code, code = 0 ∨ code = 1) exit_1 (scp_copy w local_path remote_path).
Proof. intros Htame. unfold scp_copy. repeat ends_step Htame. Qed.

Lemma upload_images_ends (w : world) :
  tame w → ends (λ _, True) exit_1 (upload_images w).
Proof. intros Htame. unfold upload_images. repeat ends_step Htame. Qed.

Lemma ssh_run_ends (w : world) (command : string) :
  tame w →
  ends (λ code, code = w_exit_status w) exit_1 (ssh_run w command).
Proof.
  intros Htame. unfold ssh_run.
  do 2 (apply ends_then; [ends_step Htame | intros ?]).
  destruct (negb _); [repeat ends_step Htame |].
  do 2 (apply ends_then; [repeat ends_step Htame | intros ?]).
  apply ends_try_finally; [| apply ends_close].
  apply (ends_try_except _ _ (λ e, is_Exception e = true));
    [| intros e He; apply ends_handlers; [| exact He];
       apply ends_raise; by intros ? [= <-]].
  do 3 (apply ends_then; [ends_step Htame | intros ?]).
  apply ends_then; [ends_step Htame | intros ?].
  apply (ends_bind _ (λ code, code = w_exit_status w)).
  - unfold recv_exit_status. apply ends_then; [apply ends_emit |].
    intros _. by apply ends_ret.
  - intros code ->. repeat ends_step Htame.
Qed.

(** X24. As long as every exception the library raises is of class
    [Exception], a run of scp_run.py or of upload_images.py that ends by
    [sys.exit] or by reaching the end of the script has exit status 0 or
    1, and such a run of ssh_run.py has exit status 1 or the exit status
    of the remote command, whatever the arguments are and whatever fails
    after the client was created.  The statement is silent on runs that
    die of an exception no handler catches. *)
Theorem exit_statuses (w : world) (r : remote_fs) :
  tame w →
  (∀ argv, exits_in [0; 1] (run (scp_main w argv) (init_state r)).1)
  ∧ (∀ argv, exits_in [1; w_exit_status w] (run (ssh_main w argv) (init_state r)).1)
  ∧ exits_in [0; 1] (run (upload_images w) (init_state r)).1.
Proof.
  intros Htame. split; [| split].
  - intros argv. destruct argv as [| script [| local_path [| remote_path args]]];
      [apply list_elem_of_further, list_elem_of_here .. |].
    unfold run, scp_main, bind.
    pose proof (scp_copy_ends w local_path remote_path Htame (init_state r)) as H.
    destruct (scp_copy w local_path remote_path (init_state r)) as [[code | e] s];
      cbn [fst] in *.
    + destruct H as [-> | ->];
        [apply list_elem_of_here | apply list_elem_of_further, list_elem_of_here].
    + destruct e; try exact I. rewrite (H _ eq_refl).
      apply list_elem_of_further, list_elem_of_here.
  - intros argv. destruct argv as [| script [| word words]];
      [apply list_elem_of_here .. |].
    unfold run, ssh_main, bind.
    pose proof (ssh_run_ends w (String.concat " " (word :: words)) Htame (init_state r)) as H.
    destruct (ssh_run w _ (init_state r)) as [[code | e] s]; cbn [fst] in *.
    + subst code. apply list_elem_of_further, list_elem_of_here.
    + destruct e; try exact I. rewrite (H _ eq_refl). apply list_elem_of_here.
  - unfold run.
    pose proof (upload_images_ends w Htame (init_state r)) as H.
    destruct (upload_images w (init_state r)) as [[[] | e] s]; cbn [fst] in *.
    + apply list_elem_of_here.
    + destruct e; try exact I. rewrite (H _ eq_refl).
      apply list_elem_of_further, list_elem_of_here.
Qed.

Lemma demo_tame : tame demo_world.
Proof. repeat split; intros; discriminate. Qed.

Lemma exit_statuses_witness :
  exits_in [1; 17]
    (run (ssh_main demo_world ["ssh_run.py"; "echo"; "hi"]) (init_state empty_remote)).1.
Proof.
  exact (proj1 (proj2 (exit_statuses demo_world empty_remote demo_tame))
           ["ssh_run.py"; "echo"; "hi"]).
Defined.

(** ** Where the uploads go *)

Lemma emits_loop_below (w : world) (root : string) (total : nat) (files : list node)
    (i : nat) :
  emits (below root) (upload_loop w root total i files).
Proof.
  revert i. induction files as [| f files IH]; intros i; [apply emits_ret |].
  cbn [upload_loop]. apply emits_bind.
  - unfold sftp_put.
    only_events ltac:(first [by right; exists (node_name f) | intros; exact I]).
  - intros _. apply emits_bind; [| intros _; apply IH].
    destruct (_ || _); [by apply emits_emit | apply emits_ret].
Qed.

(** Shows that a script changes the remote host at [root] only. *)
Ltac stays_below :=
  only_events ltac:(first [reflexivity | intros; exact I]);
  first [ apply emits_loop_below
        | apply emits_emit; by left ].

(** X25. Whatever the environment does, [scp_copy] changes the remote
    host at [remote_path] only: the directory it creates is
    [remote_path], and a file goes to [remote_path] itself or to a name
    directly below it.  [upload_images] does the same with its fixed
    directory [/root/PerfumesStore/server/uploads/products]. *)
Theorem writes_stay_below (w : world) (r : remote_fs) :
  (∀ local_path remote_path,
     Forall (below remote_path)
       (trace (scp_copy w local_path remote_path (init_state r)).2))
  ∧ Forall (below "/root/PerfumesStore/server/uploads/products")
      (trace (upload_images w (init_state r)).2).
Proof.
  split.
  - intros local_path remote_path. apply emits_from_start.
    unfold scp_copy. stays_below.
  - apply emits_from_start. unfold upload_images. fold remote_dir. stays_below.
Qed.
